(** * Contact obfuscator and profile statistics updater

    A shallow embedding of [assets/js/github-metrics.js]: the two
    self-initialising browser modules of the site.  JavaScript strings are
    sequences of UTF-16 code units, the DOM is a heap of nodes addressed by
    identity, the console and the network are recorded in a trace. *)

From Stdlib Require Import ZArith NArith Ascii String Lia.
From stdpp Require Import base option list strings gmap.

Set Warnings "-register-all".
Local Open Scope N_scope.

(** ** JavaScript strings and values *)

(** A code unit of a JavaScript string (0 .. 0xFFFF). *)
Abbreviation codeunit := N.
Abbreviation jsstring := (list N).

Definition chr (a : ascii) : codeunit := N_of_ascii a.

(** The JavaScript string denoted by an ASCII literal of the source. *)
Definition str (s : string) : jsstring := map chr (list_ascii_of_string s).

(** The values that reach the functions of the module: primitives, and the
    objects and arrays that [JSON.parse] builds.  Numbers are the
    integer-valued ones (the API's counters): [VNum z] is the number that
    the numeral [z] denotes, which is [z] itself up to 2^53 in size and the
    number nearest to [z] beyond.  An object lists its own properties, each
    name once. *)
Inductive jsval :=
  | VUndefined
  | VNull
  | VBool (b : bool)
  | VNum (z : Z)
  | VStr (s : jsstring)
  | VArr (items : list jsval)
  | VObj (props : list (jsstring * jsval)).

(** [ToBoolean], the test behind [!x], [if (x)] and [x || y]. *)
Definition truthy (v : jsval) : bool :=
  match v with
  | VUndefined | VNull => false
  | VBool b => b
  | VNum z => negb (z =? 0)%Z
  | VStr s => negb (bool_decide (s = []))
  | VArr _ | VObj _ => true
  end.

(** [typeof v === 'string'] *)
Definition is_string (v : jsval) : bool :=
  match v with VStr _ => true | _ => false end.

(** ** Regular expressions *)

(** One member of a bracketed character class: a range [lo-hi] or a single
    character. *)
Inductive classItem :=
  | Range (lo hi : ascii)
  | Single (c : ascii).

(** A character class [[...]] or [[^...]]. *)
Record charClass := CharClass { negated : bool; items : list classItem }.

Definition item_test (i : classItem) (c : codeunit) : bool :=
  match i with
  | Range lo hi => (chr lo <=? c) && (c <=? chr hi)
  | Single a => c =? chr a
  end.

Definition class_test (cc : charClass) (c : codeunit) : bool :=
  xorb (negated cc) (existsb (fun i => item_test i c) (items cc)).

Inductive regex :=
  | Void
  | Eps
  | Class (cc : charClass)
  | Seq (r1 r2 : regex)
  | Alt (r1 r2 : regex)
  | Star (r : regex).

(** [c], [r+] and [r{n,}] *)
Definition Chr (a : ascii) : regex := Class (CharClass false [Single a]).
Definition Plus (r : regex) : regex := Seq r (Star r).
Fixpoint AtLeast (n : nat) (r : regex) : regex :=
  match n with
  | O => Star r
  | S n' => Seq r (AtLeast n' r)
  end.

(** The strings a pattern matches in full. *)
Inductive matches : regex -> jsstring -> Prop :=
  | MEps : matches Eps []
  | MClass cc c : class_test cc c = true -> matches (Class cc) [c]
  | MSeq r1 r2 s1 s2 :
      matches r1 s1 -> matches r2 s2 -> matches (Seq r1 r2) (s1 ++ s2)
  | MAltL r1 r2 s : matches r1 s -> matches (Alt r1 r2) s
  | MAltR r1 r2 s : matches r2 s -> matches (Alt r1 r2) s
  | MStarNil r : matches (Star r) []
  | MStarApp r s1 s2 :
      matches r s1 -> matches (Star r) s2 -> matches (Star r) (s1 ++ s2).

(** The matcher, by derivatives. *)
Fixpoint nullable (r : regex) : bool :=
  match r with
  | Void => false
  | Eps => true
  | Class _ => false
  | Seq r1 r2 => nullable r1 && nullable r2
  | Alt r1 r2 => nullable r1 || nullable r2
  | Star _ => true
  end.

Fixpoint deriv (c : codeunit) (r : regex) : regex :=
  match r with
  | Void | Eps => Void
  | Class cc => if class_test cc c then Eps else Void
  | Seq r1 r2 =>
      if nullable r1
      then Alt (Seq (deriv c r1) r2) (deriv c r2)
      else Seq (deriv c r1) r2
  | Alt r1 r2 => Alt (deriv c r1) (deriv c r2)
  | Star r1 => Seq (deriv c r1) (Star r1)
  end.

Fixpoint regex_match (r : regex) (s : jsstring) : bool :=
  match s with
  | [] => nullable r
  | c :: s' => regex_match (deriv c r) s'
  end.

(** [/^r$/.test(s)] for a pattern without flags: the anchors make the whole
    of [s] the only candidate match. *)
Definition RegExp_test (r : regex) (s : jsstring) : bool := regex_match r s.

(** [s.replace(/cc/g, by)] for a one-character pattern and a replacement
    without [$]: every code unit in the class is replaced, the others are
    kept in order. *)
Definition replace_class_g (cc : charClass) (by_ : jsstring) (s : jsstring)
  : jsstring :=
  flat_map (fun c => if class_test cc c then by_ else [c]) s.

(** ** URI encoding *)

(** [uriUnescaped]: letters, digits and the marks [-_.!~*'()]. *)
Definition uriUnescaped : charClass :=
  CharClass false
    [Range "a" "z"; Range "A" "Z"; Range "0" "9";
     Single "-"; Single "_"; Single "."; Single "!"; Single "~";
     Single "*"; Single "'"; Single "("; Single ")"].

(** [uriReserved] is [;/?:@&=+$,]; [encodeURI] also keeps [#]. *)
Definition uriReservedHash : list classItem :=
  [Single ";"; Single "/"; Single "?"; Single ":"; Single "@"; Single "&";
   Single "="; Single "+"; Single "$"; Single ","; Single "#"].

Definition hexDigit (n : N) : codeunit :=
  if n <? 10 then chr "0" + n else chr "A" + (n - 10).

Definition percent (octet : N) : jsstring :=
  [chr "%"; hexDigit (octet / 16); hexDigit (octet mod 16)].

Definition utf8 (cp : N) : list N :=
  if cp <? 0x80 then [cp]
  else if cp <? 0x800 then [0xC0 + cp / 64; 0x80 + cp mod 64]
  else if cp <? 0x10000 then
    [0xE0 + cp / 4096; 0x80 + (cp / 64) mod 64; 0x80 + cp mod 64]
  else
    [0xF0 + cp / 262144; 0x80 + (cp / 4096) mod 64;
     0x80 + (cp / 64) mod 64; 0x80 + cp mod 64].

Definition isLeadSurrogate (c : codeunit) : bool :=
  (0xD800 <=? c) && (c <=? 0xDBFF).
Definition isTrailSurrogate (c : codeunit) : bool :=
  (0xDC00 <=? c) && (c <=? 0xDFFF).

(** The abstract operation [Encode(string, unescapedSet)] of ECMAScript;
    [None] is the [URIError] of an unpaired surrogate. *)
Fixpoint Encode (unescaped : charClass) (s : jsstring) : option jsstring :=
  match s with
  | [] => Some []
  | c :: rest =>
      if class_test unescaped c then cons c <$> Encode unescaped rest
      else if isTrailSurrogate c then None
      else if isLeadSurrogate c then
        match rest with
        | c2 :: rest' =>
            if isTrailSurrogate c2 then
              let cp := (c - 0xD800) * 0x400 + (c2 - 0xDC00) + 0x10000 in
              app (flat_map percent (utf8 cp)) <$> Encode unescaped rest'
            else None
        | [] => None
        end
      else app (flat_map percent (utf8 c)) <$> Encode unescaped rest
  end.

Definition encodeURI_pure (s : jsstring) : option jsstring :=
  Encode (CharClass false (items uriUnescaped ++ uriReservedHash)) s.

Definition encodeURIComponent_pure (s : jsstring) : option jsstring :=
  Encode uriUnescaped s.

(** ** The document *)

(** Nodes are identified by their slot in the heap.  Text nodes are never
    addressed by the scripts and are kept inline in their parent. *)
Abbreviation nid := nat.

Inductive child :=
  | CText (data : jsstring)
  | CNode (n : nid).

(** An element with its [tagName], or a parent that is no element (the
    document itself, a fragment or a shadow root). *)
Inductive nodeKind :=
  | Element (tag : string)
  | Container.

Record node := Node {
  kind : nodeKind;
  attributes : gmap string jsstring;
  parentNode : option nid;
  childNodes : list child
}.

Abbreviation DOM := (list node).

(** Slot 0 holds the document. *)
Definition documentNode : nid := 0%nat.

Global Instance child_eq_dec : EqDecision child.
Proof. solve_decision. Defined.
Global Instance nodeKind_eq_dec : EqDecision nodeKind.
Proof. solve_decision. Defined.

Module Dom.

Definition getAttribute (d : DOM) (e : nid) (name : string) : jsval :=
  match d !! e with
  | Some nd =>
      match attributes nd !! name with
      | Some s => VStr s
      | None => VNull
      end
  | None => VNull
  end.

(** The content attribute behind the reflecting properties [className],
    [href], [target] and [rel]: empty when the attribute is absent. *)
Definition reflected (d : DOM) (e : nid) (name : string) : jsstring :=
  match getAttribute d e name with
  | VStr s => s
  | _ => []
  end.

Definition setAttribute (d : DOM) (e : nid) (name : string) (v : jsstring)
  : DOM :=
  match d !! e with
  | Some nd =>
      <[e := Node (kind nd) (<[name := v]> (attributes nd))
                  (parentNode nd) (childNodes nd)]> d
  | None => d
  end.

Definition tagName (d : DOM) (e : nid) : option string :=
  match d !! e with
  | Some nd => match kind nd with Element t => Some t | Container => None end
  | None => None
  end.

Definition getParentNode (d : DOM) (e : nid) : option nid :=
  match d !! e with
  | Some nd => parentNode nd
  | None => None
  end.

(** [parentElement]: the parent when it is an element, else null. *)
Definition parentElement (d : DOM) (e : nid) : option nid :=
  match getParentNode d e with
  | Some p => match tagName d p with Some _ => Some p | None => None end
  | None => None
  end.

(** The text of the descendants in tree order.  The recursion follows the
    heap and [fuel] bounds its depth; [None] when the fuel runs out or a
    child is missing from the heap. *)
Fixpoint textContent_upto (fuel : nat) (d : DOM) (e : nid)
  : option jsstring :=
  match fuel with
  | O => None
  | S fuel' =>
      match d !! e with
      | Some nd =>
          mjoin <$>
            mapM (fun ch =>
                    match ch with
                    | CText s => Some s
                    | CNode c => textContent_upto fuel' d c
                    end)
                 (childNodes nd)
      | None => None
      end
  end.

(** The nodes under [e] form a tree inside the heap.  No path of a tree is
    longer than the heap, so this much fuel reads all of its text. *)
Definition treeAt (d : DOM) (e : nid) : Prop :=
  is_Some (textContent_upto (S (length d)) d e).

(** The [textContent] getter. *)
Definition textContent (d : DOM) (e : nid) : jsstring :=
  default [] (textContent_upto (S (length d)) d e).

Definition setParent (p : option nid) (d : DOM) (e : nid) : DOM :=
  match d !! e with
  | Some nd => <[e := Node (kind nd) (attributes nd) p (childNodes nd)]> d
  | None => d
  end.

Definition childElements (l : list child) : list nid :=
  flat_map (fun ch => match ch with CNode c => [c] | CText _ => [] end) l.

(** The [textContent] setter: the children are removed, and a single text
    node is put in their place unless the string is empty. *)
Definition setTextContent (d : DOM) (e : nid) (s : jsstring) : DOM :=
  match d !! e with
  | Some nd =>
      let d1 := foldl (setParent None) d (childElements (childNodes nd)) in
      match d1 !! e with
      | Some nd1 =>
          <[e := Node (kind nd1) (attributes nd1) (parentNode nd1)
                      (if bool_decide (s = []) then [] else [CText s])]> d1
      | None => d1
      end
  | None => d
  end.

Definition upperAscii (a : ascii) : ascii :=
  let n := N_of_ascii a in
  if (97 <=? n) && (n <=? 122) then ascii_of_N (n - 32) else a.

Definition toUpperCase (s : string) : string :=
  string_of_list_ascii (map upperAscii (list_ascii_of_string s)).

(** [document.createElement(tag)] in an HTML document: a new element with
    an upper-case [tagName], no attributes, no parent and no children.
    The new node takes the next free slot. *)
Definition createElement (d : DOM) (tag : string) : DOM * nid :=
  (d ++ [Node (Element (toUpperCase tag)) ∅ None []], length d).

(** [parent.replaceChild(new, old)] for a [new] without parent and without
    descendants: [None] is the [NotFoundError] raised when [old] is no
    child of [parent]. *)
Definition replaceChild (d : DOM) (parent new old : nid) : option DOM :=
  if bool_decide (getParentNode d old = Some parent) then
    match d !! parent with
    | Some nd =>
        let d1 :=
          <[parent := Node (kind nd) (attributes nd) (parentNode nd)
               (map (fun ch => if bool_decide (ch = CNode old)
                               then CNode new else ch) (childNodes nd))]> d in
        Some (setParent (Some parent) (setParent None d1 old) new)
    | None => None
    end
  else None.

(** *** Selectors *)

Inductive selector :=
  | ByClass (c : string)                       (* .c *)
  | ByTagAttrs (tag : string) (names : list string)  (* tag[a1][a2]... *)
  | FirstOfType (tag : string)                 (* tag:first-of-type *)
  | LastOfType (tag : string).                 (* tag:last-of-type *)

Definition isAsciiWhitespace (c : codeunit) : bool :=
  existsb (N.eqb c) [9; 10; 12; 13; 32].

(** The tokens of a [class] attribute. *)
Fixpoint tokens_from (cur : jsstring) (s : jsstring) : list jsstring :=
  match s with
  | [] => if bool_decide (cur = []) then [] else [rev cur]
  | c :: s' =>
      if isAsciiWhitespace c
      then (if bool_decide (cur = []) then [] else [rev cur])
             ++ tokens_from [] s'
      else tokens_from (c :: cur) s'
  end.

Definition classList (d : DOM) (e : nid) : list jsstring :=
  tokens_from [] (reflected d e "class").

(** A type selector of an HTML document selects the HTML elements of that
    name, whatever its case. *)
Definition hasTag (d : DOM) (tag : string) (e : nid) : bool :=
  bool_decide (tagName d e = Some (toUpperCase tag)).

(** The siblings of [e] of the type [tag], [e] among them, in tree order. *)
Definition siblingsOfType (d : DOM) (tag : string) (e : nid) : list nid :=
  match getParentNode d e with
  | Some p =>
      match d !! p with
      | Some nd => filter (fun c => hasTag d tag c = true)
                     (childElements (childNodes nd))
      | None => [e]
      end
  | None => [e]
  end.

Definition selects (d : DOM) (sel : selector) (e : nid) : bool :=
  match sel with
  | ByClass c =>
      bool_decide (is_Some (tagName d e))
      && bool_decide (str c ∈ classList d e)
  | ByTagAttrs tag names =>
      hasTag d tag e
      && forallb (fun a => is_string (getAttribute d e a)) names
  | FirstOfType tag =>
      hasTag d tag e && bool_decide (head (siblingsOfType d tag e) = Some e)
  | LastOfType tag =>
      hasTag d tag e && bool_decide (last (siblingsOfType d tag e) = Some e)
  end.

(** The descendants of a node in tree order. *)
Fixpoint descendants_upto (fuel : nat) (d : DOM) (e : nid) : list nid :=
  match fuel with
  | O => []
  | S fuel' =>
      match d !! e with
      | Some nd =>
          flat_map (fun c => c :: descendants_upto fuel' d c)
            (childElements (childNodes nd))
      | None => []
      end
  end.

Definition descendants (d : DOM) (e : nid) : list nid :=
  descendants_upto (length d) d e.

Definition querySelectorAll (d : DOM) (root : nid) (sel : selector)
  : list nid :=
  filter (fun e => selects d sel e = true) (descendants d root).

Definition querySelector (d : DOM) (root : nid) (sel : selector)
  : option nid :=
  head (querySelectorAll d root sel).

End Dom.

(** ** Scripts: state, console, exceptions *)

Inductive exn :=
  | Error (msg : string)
  | NetworkError
  | SyntaxError
  | URIError
  | NotFoundError.

Inductive event :=
  | Fetched (url : string)
  | ConsoleLog (msg : string)
  | ConsoleWarn (msg : string) (args : list jsval)
  | ConsoleError (msg : string) (error : exn).

(** The page as a script sees it: the document, and what has been sent to
    the console and the network so far, oldest first. *)
Record world := World { document : DOM; trace : list event }.

Inductive result (A : Type) :=
  | Ok (a : A)
  | Throw (e : exn).
Arguments Ok {A} a.
Arguments Throw {A} e.

Definition JS (A : Type) : Type := world -> result A * world.

Global Instance JS_ret : MRet JS := fun A a w => (Ok a, w).
Global Instance JS_bind : MBind JS := fun A B f m w =>
  match m w with
  | (Ok a, w') => f a w'
  | (Throw e, w') => (Throw e, w')
  end.

Global Instance JS_fmap : FMap JS := fun A B f m w =>
  match m w with
  | (Ok a, w') => (Ok (f a), w')
  | (Throw e, w') => (Throw e, w')
  end.

Definition throw {A} (e : exn) : JS A := fun w => (Throw e, w).

Definition try_catch {A} (body : JS A) (handler : exn -> JS A) : JS A :=
  fun w =>
    match body w with
    | (Ok a, w') => (Ok a, w')
    | (Throw e, w') => handler e w'
    end.

Definition reads {A} (f : DOM -> A) : JS A :=
  fun w => (Ok (f (document w)), w).
Definition writes (f : DOM -> DOM) : JS unit :=
  fun w => (Ok tt, World (f (document w)) (trace w)).
Definition emit (ev : event) : JS unit :=
  fun w => (Ok tt, World (document w) (trace w ++ [ev])).

(** A value or the exception [e]. *)
Definition orThrow {A} (e : exn) (o : option A) : JS A :=
  match o with
  | Some a => mret a
  | None => throw e
  end.

(** [list.forEach(callback)] over a static list. *)
Fixpoint forEach {A} (l : list A) (callback : A -> JS unit) : JS unit :=
  match l with
  | [] => mret tt
  | x :: l' => callback x ;; forEach l' callback
  end.

Definition console_log (msg : string) : JS unit := emit (ConsoleLog msg).
Definition console_warn (msg : string) (args : list jsval) : JS unit :=
  emit (ConsoleWarn msg args).
Definition console_error (msg : string) (error : exn) : JS unit :=
  emit (ConsoleError msg error).

Definition encodeURI (s : jsstring) : JS jsstring :=
  orThrow URIError (encodeURI_pure s).
Definition encodeURIComponent (s : jsstring) : JS jsstring :=
  orThrow URIError (encodeURIComponent_pure s).

Definition getAttribute (e : nid) (name : string) : JS jsval :=
  reads (fun d => Dom.getAttribute d e name).
Definition setAttribute (e : nid) (name : string) (v : jsstring) : JS unit :=
  writes (fun d => Dom.setAttribute d e name v).
Definition className (e : nid) : JS jsstring :=
  reads (fun d => Dom.reflected d e "class").
Definition tagName (e : nid) : JS (option string) :=
  reads (fun d => Dom.tagName d e).
Definition parentNode_of (e : nid) : JS (option nid) :=
  reads (fun d => Dom.getParentNode d e).
Definition parentElement (e : nid) : JS (option nid) :=
  reads (fun d => Dom.parentElement d e).
Definition textContent (e : nid) : JS jsstring :=
  reads (fun d => Dom.textContent d e).
Definition setTextContent (e : nid) (s : jsstring) : JS unit :=
  writes (fun d => Dom.setTextContent d e s).
Definition createElement (tag : string) : JS nid :=
  fun w => let '(d, e) := Dom.createElement (document w) tag in
           (Ok e, World d (trace w)).
Definition replaceChild (parent new old : nid) : JS unit :=
  fun w => match Dom.replaceChild (document w) parent new old with
           | Some d => (Ok tt, World d (trace w))
           | None => (Throw NotFoundError, w)
           end.
Definition querySelectorAll (root : nid) (sel : Dom.selector)
  : JS (list nid) :=
  reads (fun d => Dom.querySelectorAll d root sel).
Definition querySelector (root : nid) (sel : Dom.selector)
  : JS (option nid) :=
  reads (fun d => Dom.querySelector d root sel).

(** ** Conversions *)

Fixpoint digits (u : Decimal.uint) : jsstring :=
  match u with
  | Decimal.Nil => []
  | Decimal.D0 r => chr "0" :: digits r
  | Decimal.D1 r => chr "1" :: digits r
  | Decimal.D2 r => chr "2" :: digits r
  | Decimal.D3 r => chr "3" :: digits r
  | Decimal.D4 r => chr "4" :: digits r
  | Decimal.D5 r => chr "5" :: digits r
  | Decimal.D6 r => chr "6" :: digits r
  | Decimal.D7 r => chr "7" :: digits r
  | Decimal.D8 r => chr "8" :: digits r
  | Decimal.D9 r => chr "9" :: digits r
  end.

(** The decimal digits of a natural number. *)
Definition decimal (z : Z) : jsstring := digits (N.to_uint (Z.to_N z)).

(** The number value nearest to a positive integer: the integer itself
    below 2^53; beyond, the multiple [m * 2^e] of a power of two with 53
    significant bits, a tie going to the even [m]; [None] when that
    overflows to Infinity. *)
Definition nearestDouble (z : Z) : option (Z * Z) :=
  let e := (Z.log2 z - 52)%Z in
  if (e <=? 0)%Z then Some (z, 0%Z)
  else
    let m0 := Z.shiftr z e in
    let r := (z - Z.shiftl m0 e)%Z in
    let half := Z.shiftl 1 (e - 1) in
    let m := if (half <? r)%Z || ((r =? half)%Z && Z.odd m0)
             then (m0 + 1)%Z else m0 in
    let '(m, e) := if (m =? 2 ^ 53)%Z then (2 ^ 52, e + 1)%Z else (m, e) in
    if (971 <? e)%Z then None else Some (m, e).

(** Whether the integer [x] is read back as the number [m * 2^e]
    ([0 < e]): it lies between the midpoints to the neighbouring numbers,
    a midpoint itself counting when [m] is even. *)
Definition readsBackAs (m e x : Z) : bool :=
  let v := (2 * Z.shiftl m e)%Z in
  let above := Z.shiftl 1 e in
  let below := if (m =? 2 ^ 52)%Z then Z.shiftl 1 (e - 1) else above in
  if Z.even m
  then (v - below <=? 2 * x)%Z && (2 * x <=? v + above)%Z
  else (v - below <? 2 * x)%Z && (2 * x <? v + above)%Z.

(** The integer with at most [k] significant digits that is read back as
    [m * 2^e] and is nearest to it, if there is one; of two equally near,
    the one whose last significant digit is even. *)
Definition shortest (m e : Z) (k : nat) : option Z :=
  let v := Z.shiftl m e in
  let unit := (10 ^ (Z.of_nat (length (decimal v)) - Z.of_nat k))%Z in
  let lo := (v / unit * unit)%Z in
  let hi := (lo + unit)%Z in
  match readsBackAs m e lo, readsBackAs m e hi with
  | true, true =>
      if (v - lo <? hi - v)%Z then Some lo
      else if (hi - v <? v - lo)%Z then Some hi
      else if Z.even (lo / unit) then Some lo else Some hi
  | true, false => Some lo
  | false, true => Some hi
  | false, false => None
  end.

Fixpoint firstSome {A B} (f : A -> option B) (l : list A) : option B :=
  match l with
  | [] => None
  | x :: l' => match f x with Some y => Some y | None => firstSome f l' end
  end.

Fixpoint dropZeros (s : jsstring) : jsstring :=
  match s with
  | [] => []
  | c :: s' =>
      match dropZeros s' with
      | [] => if c =? chr "0" then [] else [c]
      | t => c :: t
      end
  end.

(** The text of a positive number whose shortest decimal is [x]: every
    digit below 10^21, the exponent form from there on. *)
Definition printDecimal (x : Z) : jsstring :=
  let s := decimal x in
  if (length s <=? 21)%nat then s
  else
    let exponent := str "e+" ++ decimal (Z.of_nat (length s) - 1) in
    match dropZeros s with
    | [] => s
    | [c] => c :: exponent
    | c :: t => c :: chr "." :: t ++ exponent
    end.

Definition Number_toString_positive (z : Z) : jsstring :=
  match nearestDouble z with
  | None => str "Infinity"
  | Some (m, e) =>
      if (e =? 0)%Z then decimal m
      else
        let v := Z.shiftl m e in
        match firstSome (shortest m e) (seq 1 (length (decimal v))) with
        | Some x => printDecimal x
        | None => printDecimal v
        end
  end.

(** [Number::toString] of the number that [VNum z] stands for: the
    shortest decimal that is read back as that number, which for an
    integer below 2^53 in size is the integer's own digits. *)
Definition Number_toString (z : Z) : jsstring :=
  match z with
  | Z0 => str "0"
  | Zpos _ => Number_toString_positive z
  | Zneg _ => chr "-" :: Number_toString_positive (- z)
  end.

(** Whether an object built by [JSON.parse] has a property [toString] of
    its own.  No JSON value can be called, so such a property hides
    [Object.prototype.toString] and leaves the object without a way to a
    primitive value. *)
Definition ownToString (props : list (jsstring * jsval)) : bool :=
  existsb (fun kv => bool_decide (fst kv = str "toString")) props.

(** [ToString]; [None] when it throws a [TypeError].  An array is joined
    ([Array.prototype.toString]); an object is [[object Object]] unless a
    property [toString] of its own is in the way, in which case neither
    [toString] nor [valueOf] gives a primitive. *)
Fixpoint ToString (v : jsval) : option jsstring :=
  match v with
  | VUndefined => Some (str "undefined")
  | VNull => Some (str "null")
  | VBool b => Some (if b then str "true" else str "false")
  | VNum z => Some (Number_toString z)
  | VStr s => Some s
  | VArr l =>
      (fix join (l : list jsval) : option jsstring :=
         match l with
         | [] => Some []
         | x :: l' =>
             match match x with
                   | VUndefined | VNull => Some []
                   | _ => ToString x
                   end with
             | Some first =>
                 match l' with
                 | [] => Some first
                 | _ =>
                     match join l' with
                     | Some others => Some (first ++ chr "," :: others)
                     | None => None
                     end
                 end
             | None => None
             end
         end) l
  | VObj props =>
      if ownToString props then None else Some (str "[object Object]")
  end.

(** [ToPrimitive]: a primitive is its own; an array or an object built by
    [JSON.parse] comes to the string that [ToString] makes of it, or
    throws as it does. *)
Definition ToPrimitive (v : jsval) : option jsval :=
  match v with
  | VArr _ | VObj _ => VStr <$> ToString v
  | _ => Some v
  end.

(** The conversion of a value assigned to a nullable string attribute such
    as [textContent]: null and undefined stand for no text. *)
Definition toNullableDOMString (v : jsval) : option jsstring :=
  match v with
  | VUndefined | VNull => Some []
  | _ => ToString v
  end.

(** [v.name] for a name that the built-in prototypes do not define:
    undefined unless [v] is an object with that property.  Reading a
    property of null or undefined throws a [TypeError], here [None]. *)
Definition getField (v : jsval) (name : string) : option jsval :=
  match v with
  | VUndefined | VNull => None
  | VObj props =>
      Some (default VUndefined
              (snd <$> find (fun kv => bool_decide (fst kv = str name)) props))
  | _ => Some VUndefined
  end.

(** ** The profile statistics updater (first script) *)

Module GitHubMetrics.

Definition GITHUB_USERNAME : string := "pvl-k".
Definition GITHUB_API_BASE : string := "https://api.github.com".

(** What the network answers to a request: the request fails, or a
    response arrives with a status and a body that parses as JSON or does
    not. *)
Inductive fetchOutcome :=
  | Rejected
  | Responded (status : Z) (body : option jsval).

Record response := Response { ok : bool; json : option jsval }.

Section Network.

Variable network : string -> fetchOutcome.

Definition fetch (url : string) : JS response :=
  emit (Fetched url) ;;
  match network url with
  | Rejected => throw NetworkError
  | Responded status body =>
      mret (Response ((200 <=? status)%Z && (status <=? 299)%Z) body)
  end.

Definition fetchGitHubData : JS jsval :=
  try_catch
    (response ← fetch (GITHUB_API_BASE +:+ "/users/" +:+ GITHUB_USERNAME);
     if negb (ok response)
     then throw (Error "Failed to fetch GitHub data")
     else orThrow SyntaxError (json response))
    (fun error =>
       console_error "Error fetching GitHub data:" error ;; mret VNull).

(** [element.textContent = data.name] *)
Definition assignText (element : nid) (data : jsval) (name : string)
  : JS unit :=
  v ← orThrow (Error "TypeError") (getField data name);
  text ← orThrow (Error "TypeError") (toNullableDOMString v);
  setTextContent element text.

(** The function from its call to the settlement of its promise.  Nothing
    of the document is read before the response has arrived. *)
Definition updateStats : JS unit :=
  data ← fetchGitHubData;
  if truthy data then
    statsElement ← querySelector documentNode (Dom.ByClass "sidebar-stats");
    match statsElement with
    | Some statsElement =>
        followersElement ←
          querySelector statsElement (Dom.FirstOfType "strong");
        followingElement ←
          querySelector statsElement (Dom.LastOfType "strong");
        match followersElement with
        | Some followersElement => assignText followersElement data "followers"
        | None => mret tt
        end ;;
        match followingElement with
        | Some followingElement => assignText followingElement data "following"
        | None => mret tt
        end
    | None => mret tt
    end
  else mret tt.

Definition updateContributions : JS unit :=
  console_log "Contribution data loaded from static configuration".

Section Calendar.

(** The clock and the calendar are the host's: the time value of
    [new Date()] set back one year, the time value of [new Date(v)] for a
    primitive [v] ([None] for an invalid date), and [toDateString]. *)
Variable oneYearAgo : Z.
Variable timeValue : jsval -> option Z.
Variable toDateString : Z -> jsstring.

(** [events.forEach(event => ...)] with the set it fills.  [new Date(v)]
    first brings [v] to a primitive, which throws when [v] has none. *)
Fixpoint collectDays (events : list jsval) (contributionDays : gset jsstring)
  : JS (gset jsstring) :=
  match events with
  | [] => mret contributionDays
  | event :: rest =>
      created_at ← orThrow (Error "TypeError") (getField event "created_at");
      primitive ← orThrow (Error "TypeError") (ToPrimitive created_at);
      match timeValue primitive with
      | Some eventDate =>
          if (oneYearAgo <=? eventDate)%Z
          then collectDays rest ({[toDateString eventDate]} ∪ contributionDays)
          else collectDays rest contributionDays
      | None => collectDays rest contributionDays
      end
  end.

Definition fetchContributions : JS jsval :=
  try_catch
    (response ←
       fetch (GITHUB_API_BASE +:+ "/users/" +:+ GITHUB_USERNAME
              +:+ "/events/public?per_page=100");
     if negb (ok response)
     then throw (Error "Failed to fetch contributions")
     else
       events ← orThrow SyntaxError (json response);
       match events with
       | VArr items =>
           contributionDays ← collectDays items ∅;
           mret (VNum (Z.of_nat (size contributionDays)))
       | _ => throw (Error "TypeError")
       end)
    (fun error =>
       console_error "Error fetching contributions:" error ;; mret VNull).

End Calendar.

End Network.

End GitHubMetrics.

(** ** The contact obfuscator (second script) *)

Module EmailProtection.

(** [/[^a-zA-Z0-9.\-_+]/g] *)
Definition unsafeChar : charClass :=
  CharClass true
    [Range "a" "z"; Range "A" "Z"; Range "0" "9";
     Single "."; Single "-"; Single "_"; Single "+"].

Definition sanitizeEmailPart (v : jsval) : jsstring :=
  if negb (truthy v) || negb (is_string v) then []
  else match v with
       | VStr s => replace_class_g unsafeChar [] s
       | _ => []
       end.

(** [[a-zA-Z0-9._\-+]], [[a-zA-Z0-9.\-]] and [[a-zA-Z]] *)
Definition localClass : charClass :=
  CharClass false
    [Range "a" "z"; Range "A" "Z"; Range "0" "9";
     Single "."; Single "_"; Single "-"; Single "+"].
Definition domainClass : charClass :=
  CharClass false
    [Range "a" "z"; Range "A" "Z"; Range "0" "9"; Single "."; Single "-"].
Definition letterClass : charClass :=
  CharClass false [Range "a" "z"; Range "A" "Z"].

(** [/^[a-zA-Z0-9._\-+]+@[a-zA-Z0-9.\-]+\.[a-zA-Z]{2,}$/] *)
Definition emailRegex : regex :=
  Seq (Plus (Class localClass))
    (Seq (Chr "@")
       (Seq (Plus (Class domainClass))
          (Seq (Chr ".") (AtLeast 2 (Class letterClass))))).

Definition isValidEmail (v : jsval) : bool :=
  if negb (truthy v) || negb (is_string v) then false
  else match v with
       | VStr s => RegExp_test emailRegex s
       | _ => false
       end.

(** [!s] for a string *)
Definition blank (s : jsstring) : bool := negb (truthy (VStr s)).

Section Layout.

(** [innerText] is the text as rendered: it is the layout's to tell. *)
Variable innerText : DOM -> nid -> jsstring.

(** [element.textContent || element.innerText || ''] *)
Definition getElementText (element : nid) : JS jsstring :=
  t ← textContent element;
  if truthy (VStr t) then mret t
  else
    i ← reads (fun d => innerText d element);
    if truthy (VStr i) then mret i else mret [].

(** What [getElementText] returns for an element of the document [d]. *)
Definition elementText (d : DOM) (element : nid) : jsstring :=
  let t := Dom.textContent d element in
  if truthy (VStr t) then t
  else let i := innerText d element in
       if truthy (VStr i) then i else [].

(** The callback of the first [forEach]. *)
Definition emailSpanStep (element : nid) : JS unit :=
  try_catch
    (user ← sanitizeEmailPart <$> getAttribute element "data-user";
     domain ← sanitizeEmailPart <$> getAttribute element "data-domain";
     tld ← sanitizeEmailPart <$> getAttribute element "data-tld";
     if blank user || blank domain || blank tld then
       console_warn "Email protection: Missing data attributes" []
     else
       let email := user ++ str "@" ++ domain ++ str "." ++ tld in
       if negb (isValidEmail (VStr email)) then
         console_warn "Email protection: Invalid email format:" [VStr email]
       else
         parent ← parentElement element;
         parentTag ← match parent with
                     | Some p => tagName p
                     | None => mret None
                     end;
         if bool_decide (is_Some parent)
            && negb (bool_decide (parentTag = Some "A"%string)) then
           link ← createElement "a";
           encoded ← encodeURI email;
           setAttribute link "href" (str "mailto:" ++ encoded) ;;
           cls ← className element;
           setAttribute link "class" cls ;;
           text ← getElementText element;
           setTextContent link text ;;
           setAttribute link "aria-label" (str "Send email to " ++ email) ;;
           setAttribute link "rel" (str "noopener") ;;
           parentNode ← parentNode_of element;
           match parentNode with
           | Some p => replaceChild p link element
           | None => mret tt
           end
         else mret tt)
    (fun error => console_error "Email protection error:" error).

(** The callback of the second [forEach]. *)
Definition emailLinkStep (link : nid) : JS unit :=
  try_catch
    (user ← sanitizeEmailPart <$> getAttribute link "data-user";
     domain ← sanitizeEmailPart <$> getAttribute link "data-domain";
     tld ← sanitizeEmailPart <$> getAttribute link "data-tld";
     if blank user || blank domain || blank tld then
       console_warn "Email protection: Missing data attributes in link" []
     else
       let email := user ++ str "@" ++ domain ++ str "." ++ tld in
       if negb (isValidEmail (VStr email)) then
         console_warn "Email protection: Invalid email format in link:"
           [VStr email]
       else
         encoded ← encodeURI email;
         setAttribute link "href" (str "mailto:" ++ encoded) ;;
         setAttribute link "aria-label" (str "Send email to " ++ email) ;;
         setAttribute link "rel" (str "noopener"))
    (fun error => console_error "Email protection link error:" error).

Definition processProtectedEmails : JS unit :=
  protectedEmails ←
    querySelectorAll documentNode (Dom.ByClass "protected-email");
  forEach protectedEmails emailSpanStep ;;
  protectedEmailLinks ←
    querySelectorAll documentNode
      (Dom.ByTagAttrs "a" ["data-user"; "data-domain"; "data-tld"]%string);
  forEach protectedEmailLinks emailLinkStep.

(** The callback of [processProtectedTelegram]. *)
Definition telegramStep (element : nid) : JS unit :=
  try_catch
    (username ← sanitizeEmailPart <$> getAttribute element "data-username";
     if blank username then
       console_warn "Telegram protection: Missing username" []
     else
       link ← createElement "a";
       encoded ← encodeURIComponent username;
       setAttribute link "href" (str "https://t.me/" ++ encoded) ;;
       cls ← className element;
       setAttribute link "class" cls ;;
       setAttribute link "target" (str "_blank") ;;
       setAttribute link "rel" (str "noopener noreferrer") ;;
       text ← getElementText element;
       setTextContent link text ;;
       setAttribute link "aria-label" (str "Telegram " ++ username) ;;
       parentNode ← parentNode_of element;
       match parentNode with
       | Some p => replaceChild p link element
       | None => mret tt
       end)
    (fun error => console_error "Telegram protection error:" error).

Definition processProtectedTelegram : JS unit :=
  protectedTelegram ←
    querySelectorAll documentNode (Dom.ByClass "protected-telegram");
  forEach protectedTelegram telegramStep.

(** What runs once the document is ready. *)
Definition onReady : JS unit :=
  processProtectedEmails ;; processProtectedTelegram.

End Layout.

End EmailProtection.

(** ** The vocabulary of the specification *)

Module Spec.

Definition isLetter (c : codeunit) : bool :=
  ((65 <=? c) && (c <=? 90)) || ((97 <=? c) && (c <=? 122)).
Definition isDigit (c : codeunit) : bool := (48 <=? c) && (c <=? 57).

(** The set {A-Z, a-z, 0-9, '.', '-', '_', '+'} of the sanitizer. *)
Definition allowed (c : codeunit) : bool :=
  isLetter c || isDigit c
  || (c =? chr ".") || (c =? chr "-") || (c =? chr "_") || (c =? chr "+").

(** The local part allows {letters, digits, '.', '_', '-', '+'}, the domain
    labels {letters, digits, '.', '-'}. *)
Definition localChar (c : codeunit) : bool :=
  isLetter c || isDigit c
  || (c =? chr ".") || (c =? chr "_") || (c =? chr "-") || (c =? chr "+").
Definition domainChar (c : codeunit) : bool :=
  isLetter c || isDigit c || (c =? chr ".") || (c =? chr "-").

(** local-part [@] domain-labels [.] tld, in the specification's words. *)
Definition emailShape (s : jsstring) : Prop :=
  exists l dm t : jsstring,
    s = l ++ [chr "@"] ++ dm ++ [chr "."] ++ t
    /\ l <> [] /\ Forall (fun c => localChar c = true) l
    /\ dm <> [] /\ Forall (fun c => domainChar c = true) dm
    /\ Forall (fun c => isLetter c = true) t /\ (2 <= length t)%nat.

(** The three sanitized parts of an e-mail placeholder and the string
    assembled from them. *)
Definition userOf (d : DOM) (e : nid) : jsstring :=
  EmailProtection.sanitizeEmailPart (Dom.getAttribute d e "data-user").
Definition domainOf (d : DOM) (e : nid) : jsstring :=
  EmailProtection.sanitizeEmailPart (Dom.getAttribute d e "data-domain").
Definition tldOf (d : DOM) (e : nid) : jsstring :=
  EmailProtection.sanitizeEmailPart (Dom.getAttribute d e "data-tld").
Definition emailOf (d : DOM) (e : nid) : jsstring :=
  userOf d e ++ str "@" ++ domainOf d e ++ str "." ++ tldOf d e.
Definition usernameOf (d : DOM) (e : nid) : jsstring :=
  EmailProtection.sanitizeEmailPart (Dom.getAttribute d e "data-username").

(** All required parts are present and non-empty after sanitization, and
    for an e-mail the assembled string passes the validator. *)
Definition emailReady (d : DOM) (e : nid) : bool :=
  bool_decide (userOf d e <> [])
  && bool_decide (domainOf d e <> [])
  && bool_decide (tldOf d e <> [])
  && EmailProtection.isValidEmail (VStr (emailOf d e)).
Definition telegramReady (d : DOM) (e : nid) : bool :=
  bool_decide (usernameOf d e <> []).

(** The anchor stands in the list of children where the element stood. *)
Definition swapped (old new : nid) (l : list child) : list child :=
  map (fun ch => if bool_decide (ch = CNode old) then CNode new else ch) l.

(** The request of the updater and the ways it fails: no response, a
    status outside 200..299, or a body that is not JSON. *)
Definition apiUrl : string := "https://api.github.com/users/pvl-k".

Inductive failure : GitHubMetrics.fetchOutcome -> exn -> Prop :=
  | FailNetwork : failure GitHubMetrics.Rejected NetworkError
  | FailStatus status body :
      ~ (200 <= status <= 299)%Z ->
      failure (GitHubMetrics.Responded status body)
        (Error "Failed to fetch GitHub data")
  | FailJson status :
      (200 <= status <= 299)%Z ->
      failure (GitHubMetrics.Responded status None) SyntaxError.

(** The document after an assignment to the [textContent] of a target that
    may be absent. *)
Definition assigned (d : DOM) (target : option nid) (s : jsstring) : DOM :=
  match target with
  | Some e => Dom.setTextContent d e s
  | None => d
  end.

(** The text node an element holds after an assignment to [textContent]. *)
Definition leaf (s : jsstring) : list child :=
  if bool_decide (s = []) then [] else [CText s].

(** The anchor that [telegramStep] builds, before and after its label is
    set: [cls] is the class copied, [enc] the encoded handle. *)
Definition telegramDraft (cls enc : jsstring) : node :=
  Node (Element "A")
    (<["rel" := str "noopener noreferrer"]>
       (<["target" := str "_blank"]>
          (<["class" := cls]> (<["href" := str "https://t.me/" ++ enc]> ∅))))
    None [].
Definition telegramAnchor (cls enc label username : jsstring)
    (p : option nid) : node :=
  Node (Element "A")
    (<["aria-label" := str "Telegram " ++ username]>
       (attributes (telegramDraft cls enc)))
    p (leaf label).

(** The anchor that [emailSpanStep] builds, likewise. *)
Definition emailDraft (cls enc : jsstring) : node :=
  Node (Element "A")
    (<["class" := cls]> (<["href" := str "mailto:" ++ enc]> ∅))
    None [].
Definition emailAnchor (cls enc label email : jsstring) (p : option nid)
  : node :=
  Node (Element "A")
    (<["rel" := str "noopener"]>
       (<["aria-label" := str "Send email to " ++ email]>
          (attributes (emailDraft cls enc))))
    p (leaf label).

(** The old nodes after [el], a child of [p], has been replaced by the node
    in the next free slot. *)
Definition replacedIn (d : DOM) (p el : nid) : DOM :=
  match d !! p with
  | Some nd =>
      Dom.setParent None
        (<[p := Node (kind nd) (attributes nd) (parentNode nd)
                  (swapped el (length d) (childNodes nd))]> d) el
  | None => d
  end.

(** What [encodeURIComponent] makes of sanitized text: a plus sign is the
    one character it escapes. *)
Definition escapePlus (s : jsstring) : jsstring :=
  flat_map (fun c => if c =? chr "+" then str "%2B" else [c]) s.

(** What a run of the obfuscator keeps of each node that a document has,
    whether the node stays in the tree or not: its slot in the heap, its
    tag, its parent unless the node has been taken out of the tree (it is
    never put under another node), and the value of every attribute but
    [href], [aria-label] and [rel]. *)
Definition keeps (d d' : DOM) : Prop :=
  (length d <= length d')%nat
  /\ forall i, (i < length d)%nat ->
       Dom.tagName d' i = Dom.tagName d i
       /\ (Dom.getParentNode d' i = Dom.getParentNode d i
           \/ Dom.getParentNode d' i = None)
       /\ forall a : string,
            a ∉ ["href"; "aria-label"; "rel"]%string ->
            Dom.getAttribute d' i a = Dom.getAttribute d i a.

(** What pass 1 logs for an element of the document [d]. *)
Definition spanVerdict (d : DOM) (e : nid) : list event :=
  if bool_decide (userOf d e = [] \/ domainOf d e = [] \/ tldOf d e = [])
  then [ConsoleWarn "Email protection: Missing data attributes" []]
  else if EmailProtection.isValidEmail (VStr (emailOf d e)) then []
  else [ConsoleWarn "Email protection: Invalid email format:"
          [VStr (emailOf d e)]].

(** The request of [fetchContributions], and the day an event counts for:
    none when its date is unreadable or more than a year old. *)
Definition eventsUrl : string :=
  "https://api.github.com/users/pvl-k/events/public?per_page=100".

Definition recentDay (oneYearAgo : Z) (timeValue : jsval -> option Z)
    (toDateString : Z -> jsstring) (event : jsval) : option jsstring :=
  match getField event "created_at" ≫= ToPrimitive with
  | Some v =>
      match timeValue v with
      | Some t => if (oneYearAgo <=? t)%Z then Some (toDateString t) else None
      | None => None
      end
  | None => None
  end.

(** An event the counter can date: it has properties to read (it is neither
    null nor undefined), and its [created_at] can be brought to a
    primitive. *)
Definition datable (event : jsval) : bool :=
  match getField event "created_at" ≫= ToPrimitive with
  | Some _ => true
  | None => false
  end.

(** The text of a plain value: nothing for null and undefined, a string as
    it is, the digits of an integer below 2^53 in size. *)
Definition plainText (v : jsval) : option jsstring :=
  match v with
  | VUndefined | VNull => Some []
  | VBool b => Some (if b then str "true" else str "false")
  | VNum z =>
      if (Z.abs z <? 2 ^ 53)%Z
      then Some ((if (z <? 0)%Z then [chr "-"] else []) ++ decimal (Z.abs z))
      else None
  | VStr s => Some s
  | VArr _ | VObj _ => None
  end.

(** The two fields that [updateStats] writes. *)
Definition statFields : list string := ["followers"; "following"]%string.

End Spec.

(** The code units a class of ASCII members can tell apart. *)
Definition low_units : list codeunit := map N.of_nat (seq 0 256).

(** ** A sample page *)

Module Examples.

Definition element (tag : string) (attrs : list (string * string))
    (parent : option nid) (children : list child) : node :=
  Node (Element tag)
    (list_to_map (map (fun kv => (fst kv, str (snd kv))) attrs))
    parent children.

(** The document, a body with two placeholders, an anchor to fill in, the
    statistics box and a placeholder without [data-tld]; in the last slot a
    placeholder that is in no tree. *)
Definition page : DOM :=
  [ Node Container ∅ None [CNode 1%nat];
    element "BODY" [] (Some 0%nat)
      [CNode 2%nat; CText (str " "); CNode 3%nat; CNode 4%nat; CNode 5%nat;
       CNode 8%nat];
    element "SPAN"
      [("class", "protected-email"); ("data-user", "john<script>");
       ("data-domain", "example"); ("data-tld", "com")]%string
      (Some 1%nat) [CText (str "mail me")];
    element "SPAN"
      [("class", "protected-telegram"); ("data-username", "abc_123")]%string
      (Some 1%nat) [CText (str "chat")];
    element "A"
      [("data-user", "a"); ("data-domain", "b"); ("data-tld", "co")]%string
      (Some 1%nat) [CText (str "write")];
    element "DIV" [("class", "sidebar-stats")]%string (Some 1%nat)
      [CNode 6%nat; CText (str " followers "); CNode 7%nat];
    element "STRONG" [] (Some 5%nat) [CText (str "0")];
    element "STRONG" [] (Some 5%nat) [CText (str "1")];
    element "SPAN"
      [("class", "protected-email"); ("data-user", "x");
       ("data-domain", "y")]%string
      (Some 1%nat) [CText (str "?")];
    element "SPAN"
      [("class", "protected-email"); ("data-user", "a");
       ("data-domain", "b"); ("data-tld", "co")]%string
      None [CText (str "loose")] ].

(** A statistics box whose two counters each sit in a wrapper of their own,
    so that each [strong] is the first and the last of its type among its
    siblings. *)
Definition wrappedStats : DOM :=
  [ Node Container ∅ None [CNode 1%nat];
    element "BODY" [] (Some 0%nat) [CNode 2%nat];
    element "DIV" [("class", "sidebar-stats")]%string (Some 1%nat)
      [CNode 3%nat; CNode 5%nat];
    element "SPAN" [] (Some 2%nat) [CNode 4%nat; CText (str " followers")];
    element "STRONG" [] (Some 3%nat) [CText (str "1")];
    element "SPAN" [] (Some 2%nat) [CNode 6%nat; CText (str " following")];
    element "STRONG" [] (Some 5%nat) [CText (str "2")] ].

(** Two telegram placeholders: one with a plus sign in its handle, one
    that is in no tree. *)
Definition handles : DOM :=
  [ Node Container ∅ None [CNode 1%nat];
    element "SPAN"
      [("class", "protected-telegram"); ("data-username", "a+b")]%string
      (Some 0%nat) [CText (str "chat")];
    element "SPAN"
      [("class", "protected-telegram"); ("data-username", "abc")]%string
      None [CText (str "loose")] ].

(** A layout that renders nothing. *)
Definition blankLayout : DOM -> nid -> jsstring := fun _ _ => [].

(** A telegram placeholder that holds a line break and no text:
    [<span class="protected-telegram" data-username="abc_123"><br></span>]. *)
Definition lineBreak : DOM :=
  [ Node Container ∅ None [CNode 1%nat];
    element "BODY" [] (Some 0%nat) [CNode 2%nat];
    element "SPAN"
      [("class", "protected-telegram"); ("data-username", "abc_123")]%string
      (Some 1%nat) [CNode 3%nat];
    element "BR" [] (Some 2%nat) [] ].

(** A layout that renders text as it is written and a [br] element as a
    line break. *)
Fixpoint rendered (fuel : nat) (d : DOM) (e : nid) : jsstring :=
  match fuel with
  | O => []
  | S fuel' =>
      match d !! e with
      | Some nd =>
          if bool_decide (kind nd = Element "BR") then [10]
          else
            flat_map (fun ch =>
                        match ch with
                        | CText s => s
                        | CNode c => rendered fuel' d c
                        end)
                     (childNodes nd)
      | None => []
      end
  end.
Definition breakLayout : DOM -> nid -> jsstring :=
  fun d e => rendered (length d) d e.

(** The API answers with a followers field that is an object with a
    property [toString] of its own: [{"followers": {"toString": 1}}]. *)
Definition opaqueFollowers : string -> GitHubMetrics.fetchOutcome :=
  fun _ =>
    GitHubMetrics.Responded 200
      (Some (VObj [(str "followers", VObj [(str "toString", VNum 1)])])).

(** The API answers with counters beyond 2^53. *)
Definition hugeCounters : string -> GitHubMetrics.fetchOutcome :=
  fun _ =>
    GitHubMetrics.Responded 200
      (Some (VObj [(str "followers", VNum (2 ^ 64));
                   (str "following", VNum (10 ^ 21))])).

(** The API answers with the two counters, or with a server error. *)
Definition counters : jsval :=
  VObj [(str "followers", VNum 42); (str "following", VNum 7)].
Definition online : string -> GitHubMetrics.fetchOutcome :=
  fun _ => GitHubMetrics.Responded 200 (Some counters).
Definition serverError : string -> GitHubMetrics.fetchOutcome :=
  fun _ => GitHubMetrics.Responded 500 None.

(** The API answers with the followers only. *)
Definition onlyFollowers : string -> GitHubMetrics.fetchOutcome :=
  fun _ =>
    GitHubMetrics.Responded 200 (Some (VObj [(str "followers", VNum 1000)])).

(** A calendar for the examples: time values are what numbers denote, a
    day has 100 units and is named by its number. *)
Definition numberTime (v : jsval) : option Z :=
  match v with VNum z => Some z | _ => None end.
Definition dayNumber (t : Z) : jsstring := Number_toString (t / 100).

(** Four events: two on day 12, one on day 15, one long ago. *)
Definition someEvents : list jsval :=
  [ VObj [(str "created_at", VNum 1210)];
    VObj [(str "created_at", VNum 1290)];
    VObj [(str "created_at", VNum 1500)];
    VObj [(str "created_at", VNum 3)] ].
Definition eventsFeed : string -> GitHubMetrics.fetchOutcome :=
  fun _ => GitHubMetrics.Responded 200 (Some (VArr someEvents)).

(** A feed with an event whose [created_at] is an object with a property
    [toString] of its own. *)
Definition opaqueFeed : string -> GitHubMetrics.fetchOutcome :=
  fun _ =>
    GitHubMetrics.Responded 200
      (Some (VArr [ VObj [(str "created_at", VNum 1210)];
                    VObj [(str "created_at",
                           VObj [(str "toString", VNum 1)])] ])).

End Examples.

(** * Properties *)

(** ** Character classes *)

Section Classes.

Lemma chr_lt_256 (a : ascii) : chr a < 256.
Proof. destruct a as [[] [] [] [] [] [] [] []]; vm_compute; reflexivity. Qed.

Lemma item_test_high (i : classItem) (c : codeunit) :
  256 <= c -> item_test i c = false.
Proof.
  intros Hc. destruct i as [lo hi | a]; simpl.
  - pose proof (chr_lt_256 hi). apply andb_false_intro2, N.leb_gt. lia.
  - pose proof (chr_lt_256 a). apply N.eqb_neq. lia.
Qed.

Lemma existsb_item_high (l : list classItem) (c : codeunit) :
  256 <= c -> existsb (fun i => item_test i c) l = false.
Proof.
  intros Hc. induction l as [| i l IH]; simpl; [reflexivity |].
  rewrite item_test_high by assumption. exact IH.
Qed.

Lemma low_units_complete (c : codeunit) : c < 256 -> c ∈ low_units.
Proof.
  intros Hc. unfold low_units. apply list_elem_of_fmap.
  exists (N.to_nat c). split; [lia |].
  apply elem_of_seq. lia.
Qed.

(** A positive class and a predicate that is false from 256 on agree as
    soon as they agree on the low units. *)
Lemma class_test_by_table (cc : charClass) (p : codeunit -> bool) :
  negated cc = false ->
  (forall c, 256 <= c -> p c = false) ->
  forallb (fun c => bool_decide (class_test cc c = p c)) low_units = true ->
  forall c, class_test cc c = p c.
Proof.
  intros Hneg Hhigh Htab c.
  destruct (N.lt_ge_cases c 256) as [Hlt | Hge].
  - rewrite forallb_forall in Htab.
    apply low_units_complete, list_elem_of_In, Htab in Hlt.
    apply bool_decide_eq_true in Hlt. exact Hlt.
  - unfold class_test. rewrite Hneg, existsb_item_high, Hhigh by assumption.
    reflexivity.
Qed.

End Classes.

Ltac high_false :=
  let c := fresh "c" in
  let H := fresh "H" in
  intros c H; cbv [Spec.allowed Spec.localChar Spec.domainChar Spec.isLetter
                   Spec.isDigit chr];
  repeat match goal with
         | |- context [?a <=? c] => replace (a <=? c) with true
             by (symmetry; apply N.leb_le; simpl; lia)
         | |- context [c <=? ?a] => replace (c <=? a) with false
             by (symmetry; apply N.leb_gt; simpl; lia)
         | |- context [c =? ?a] => replace (c =? a) with false
             by (symmetry; apply N.eqb_neq; simpl; lia)
         end;
  reflexivity.

Lemma localClass_spec c :
  class_test EmailProtection.localClass c = Spec.localChar c.
Proof.
  apply class_test_by_table;
    [reflexivity | high_false | vm_compute; reflexivity].
Qed.

Lemma domainClass_spec c :
  class_test EmailProtection.domainClass c = Spec.domainChar c.
Proof.
  apply class_test_by_table;
    [reflexivity | high_false | vm_compute; reflexivity].
Qed.

Lemma letterClass_spec c :
  class_test EmailProtection.letterClass c = Spec.isLetter c.
Proof.
  apply class_test_by_table;
    [reflexivity | high_false | vm_compute; reflexivity].
Qed.

Lemma unsafeChar_spec c :
  class_test EmailProtection.unsafeChar c = negb (Spec.allowed c).
Proof.
  change (class_test EmailProtection.unsafeChar c)
    with (negb (class_test
                  (CharClass false (items EmailProtection.unsafeChar)) c)).
  f_equal.
  apply class_test_by_table;
    [reflexivity | high_false | vm_compute; reflexivity].
Qed.

(** ** The matcher decides [matches] *)

Section Matcher.

Lemma matches_class (cc : charClass) (s : jsstring) :
  matches (Class cc) s <-> exists c, s = [c] /\ class_test cc c = true.
Proof.
  split.
  - inversion 1; subst. eauto.
  - intros (c & -> & H). constructor. exact H.
Qed.

Lemma matches_seq (r1 r2 : regex) (s : jsstring) :
  matches (Seq r1 r2) s
  <-> exists s1 s2, s = s1 ++ s2 /\ matches r1 s1 /\ matches r2 s2.
Proof.
  split.
  - inversion 1; subst. eauto.
  - intros (s1 & s2 & -> & H1 & H2). constructor; assumption.
Qed.

Lemma nullable_matches (r : regex) : nullable r = true <-> matches r [].
Proof.
  induction r as [| | cc | r1 IH1 r2 IH2 | r1 IH1 r2 IH2 | r IH]; simpl.
  - split; [discriminate | inversion 1].
  - split; [constructor | reflexivity].
  - split; [discriminate | inversion 1].
  - rewrite andb_true_iff, IH1, IH2, matches_seq. split.
    + intros [H1 H2]. exists [], []. auto.
    + intros (s1 & s2 & Heq & H1 & H2). symmetry in Heq.
      apply app_eq_nil in Heq as [-> ->]. auto.
  - rewrite orb_true_iff, IH1, IH2. split.
    + intros [H | H]; [apply MAltL | apply MAltR]; exact H.
    + inversion 1; subst; auto.
  - split; [constructor | reflexivity].
Qed.

(** A non-empty match of [r*] starts with a non-empty match of [r]. *)
Lemma matches_star_cons (r : regex) (c : codeunit) (s : jsstring) :
  matches (Star r) (c :: s) ->
  exists s1 s2, s = s1 ++ s2 /\ matches r (c :: s1) /\ matches (Star r) s2.
Proof.
  intros H. remember (Star r) as r' eqn:Er. remember (c :: s) as s' eqn:Es.
  induction H as [| | | | | | r0 s1 s2 H1 _ H2 IH2]; try discriminate.
  injection Er as ->.
  destruct s1 as [| c1 s1]; simpl in Es.
  - apply IH2; [reflexivity | exact Es].
  - injection Es as <- <-. exists s1, s2. auto.
Qed.

Lemma deriv_matches (r : regex) (c : codeunit) (s : jsstring) :
  matches (deriv c r) s <-> matches r (c :: s).
Proof.
  revert s.
  induction r as [| | cc | r1 IH1 r2 IH2 | r1 IH1 r2 IH2 | r IH];
    intros s; simpl.
  - split; inversion 1.
  - split; inversion 1.
  - destruct (class_test cc c) eqn:Hc.
    + split.
      * inversion 1; subst. constructor. exact Hc.
      * inversion 1; subst. constructor.
    + split; [inversion 1 |].
      inversion 1; subst. congruence.
  - assert (Hseq : matches (Seq (deriv c r1) r2) s
                   <-> exists s1 s2, s = s1 ++ s2
                         /\ matches r1 (c :: s1) /\ matches r2 s2).
    { rewrite matches_seq. split.
      - intros (s1 & s2 & -> & H1 & H2).
        exists s1, s2. rewrite <- IH1. auto.
      - intros (s1 & s2 & -> & H1 & H2).
        exists s1, s2. rewrite IH1. auto. }
    assert (Hsplit : matches (Seq r1 r2) (c :: s)
                     <-> (exists s1 s2, s = s1 ++ s2
                            /\ matches r1 (c :: s1) /\ matches r2 s2)
                         \/ (matches r1 [] /\ matches r2 (c :: s))).
    { rewrite matches_seq. split.
      - intros (s1 & s2 & Heq & H1 & H2).
        destruct s1 as [| c1 s1]; simpl in Heq.
        + right. subst. auto.
        + injection Heq as -> ->. left. eauto.
      - intros [(s1 & s2 & -> & H1 & H2) | [H1 H2]].
        + exists (c :: s1), s2. auto.
        + exists [], (c :: s). auto. }
    rewrite Hsplit.
    destruct (nullable r1) eqn:Hn.
    + apply nullable_matches in Hn. split.
      * inversion 1; subst; [left; apply Hseq | right; split; [| apply IH2]];
          assumption.
      * intros [H | [_ H]]; [apply MAltL, Hseq | apply MAltR, IH2]; exact H.
    + rewrite Hseq. split; [auto |].
      intros [H | [H _]]; [exact H |].
      apply nullable_matches in H. congruence.
  - split.
    + inversion 1; subst; [apply MAltL, IH1 | apply MAltR, IH2]; assumption.
    + inversion 1; subst; [apply MAltL, IH1 | apply MAltR, IH2]; assumption.
  - rewrite matches_seq. split.
    + intros (s1 & s2 & -> & H1 & H2).
      apply IH in H1. exact (MStarApp _ (c :: s1) s2 H1 H2).
    + intros H. apply matches_star_cons in H as (s1 & s2 & -> & H1 & H2).
      exists s1, s2. rewrite IH. auto.
Qed.

Lemma regex_match_spec (r : regex) (s : jsstring) :
  regex_match r s = true <-> matches r s.
Proof.
  revert r. induction s as [| c s IH]; intros r; simpl.
  - apply nullable_matches.
  - rewrite IH. apply deriv_matches.
Qed.

(** *** What the pieces of the e-mail pattern match *)

Lemma matches_star_class (cc : charClass) (s : jsstring) :
  matches (Star (Class cc)) s <-> Forall (fun c => class_test cc c = true) s.
Proof.
  split.
  - intros H. remember (Star (Class cc)) as r eqn:Er.
    induction H as [| | | | | | r0 s1 s2 H1 _ _ IH2]; try discriminate.
    + constructor.
    + injection Er as ->. inversion H1; subst. simpl.
      constructor; [assumption | apply IH2; reflexivity].
  - induction 1 as [| c s Hc _ IH]; [constructor |].
    apply (MStarApp _ [c] s); [constructor; exact Hc | exact IH].
Qed.

Lemma matches_plus_class (cc : charClass) (s : jsstring) :
  matches (Plus (Class cc)) s
  <-> s <> [] /\ Forall (fun c => class_test cc c = true) s.
Proof.
  unfold Plus. rewrite matches_seq. split.
  - intros (s1 & s2 & -> & H1 & H2).
    apply matches_class in H1 as (c & -> & Hc).
    apply matches_star_class in H2. split; [discriminate |].
    constructor; assumption.
  - intros [Hne H]. destruct H as [| c s Hc H]; [congruence |].
    exists [c], s. split; [reflexivity |].
    split; [constructor; exact Hc | apply matches_star_class; exact H].
Qed.

Lemma matches_atleast_class (n : nat) (cc : charClass) (s : jsstring) :
  matches (AtLeast n (Class cc)) s
  <-> (n <= length s)%nat /\ Forall (fun c => class_test cc c = true) s.
Proof.
  revert s. induction n as [| n IH]; intros s; simpl.
  - rewrite matches_star_class. split; [split; [lia | assumption] | tauto].
  - rewrite matches_seq. split.
    + intros (s1 & s2 & -> & H1 & H2).
      apply matches_class in H1 as (c & -> & Hc).
      apply IH in H2 as [Hlen H2]. simpl. split; [lia |].
      constructor; assumption.
    + intros [Hlen H]. destruct H as [| c s Hc H]; simpl in Hlen; [lia |].
      exists [c], s. split; [reflexivity |].
      split; [constructor; exact Hc | apply IH; split; [lia | exact H]].
Qed.

Lemma matches_chr (a : ascii) (s : jsstring) :
  matches (Chr a) s <-> s = [chr a].
Proof.
  unfold Chr. rewrite matches_class. split.
  - intros (c & -> & H). unfold class_test in H. simpl in H.
    rewrite orb_false_r in H. apply N.eqb_eq in H. congruence.
  - intros ->. exists (chr a). split; [reflexivity |].
    unfold class_test. simpl. rewrite N.eqb_refl. reflexivity.
Qed.

Lemma Forall_class_ext (cc : charClass) (p : codeunit -> bool)
    (s : jsstring) :
  (forall c, class_test cc c = p c) ->
  Forall (fun c => class_test cc c = true) s <-> Forall (fun c => p c = true) s.
Proof.
  intros Hext. apply Forall_proper; [| reflexivity].
  intros c. rewrite Hext. reflexivity.
Qed.

Lemma emailRegex_shape (s : jsstring) :
  matches EmailProtection.emailRegex s <-> Spec.emailShape s.
Proof.
  unfold EmailProtection.emailRegex, Spec.emailShape. split.
  - intros H.
    apply matches_seq in H as (l & ? & -> & Hl & H).
    apply matches_plus_class in Hl as [Hl1 Hl2].
    apply matches_seq in H as (? & ? & -> & Ha & H).
    apply matches_chr in Ha as ->.
    apply matches_seq in H as (dm & ? & -> & Hd & H).
    apply matches_plus_class in Hd as [Hd1 Hd2].
    apply matches_seq in H as (? & t & -> & Hb & Ht).
    apply matches_chr in Hb as ->.
    apply matches_atleast_class in Ht as [Ht1 Ht2].
    exists l, dm, t.
    rewrite (Forall_class_ext _ _ _ localClass_spec) in Hl2.
    rewrite (Forall_class_ext _ _ _ domainClass_spec) in Hd2.
    rewrite (Forall_class_ext _ _ _ letterClass_spec) in Ht2.
    repeat split; assumption.
  - intros (l & dm & t & -> & Hl1 & Hl2 & Hd1 & Hd2 & Ht1 & Ht2).
    rewrite <- (Forall_class_ext _ _ _ localClass_spec) in Hl2.
    rewrite <- (Forall_class_ext _ _ _ domainClass_spec) in Hd2.
    rewrite <- (Forall_class_ext _ _ _ letterClass_spec) in Ht1.
    apply MSeq; [apply matches_plus_class; auto |].
    apply MSeq; [apply matches_chr; reflexivity |].
    apply MSeq; [apply matches_plus_class; auto |].
    apply MSeq; [apply matches_chr; reflexivity |].
    apply matches_atleast_class; auto.
Qed.

End Matcher.

(** ** The sanitizer *)

Section Sanitizer.

Import EmailProtection.

Lemma replace_class_g_delete (cc : charClass) (s : jsstring) :
  replace_class_g cc [] s = filter (fun c => class_test cc c = false) s.
Proof.
  unfold replace_class_g.
  induction s as [| c s IH]; simpl; [reflexivity |].
  rewrite filter_cons, IH.
  destruct (class_test cc c); reflexivity.
Qed.

Lemma sanitize_string (s : jsstring) :
  sanitizeEmailPart (VStr s) = filter (fun c => Spec.allowed c = true) s.
Proof.
  destruct s as [| c s]; [reflexivity |].
  unfold sanitizeEmailPart. cbn [truthy is_string].
  rewrite bool_decide_eq_false_2 by discriminate. cbn [negb orb].
  rewrite replace_class_g_delete.
  apply list_filter_iff. intros x.
  rewrite unsafeChar_spec.
  destruct (Spec.allowed x); simpl; intuition congruence.
Qed.

Lemma sanitize_allowed (v : jsval) :
  Forall (fun c => Spec.allowed c = true) (sanitizeEmailPart v).
Proof.
  destruct v as [| | b | z | s | l | props]; try (constructor; fail).
  - unfold sanitizeEmailPart. simpl. rewrite orb_true_r. constructor.
  - unfold sanitizeEmailPart. simpl. rewrite orb_true_r. constructor.
  - rewrite sanitize_string. apply Forall_forall.
    intros x Hx. apply list_elem_of_filter in Hx. tauto.
Qed.

(** C1: [sanitizeEmailPart] returns the empty string for an input that is
    absent or not a string (null, undefined and 123 among them); for a
    string it returns the characters of {A-Z, a-z, 0-9, '.', '-', '_', '+'}
    that the input holds, in order: only such characters, and a
    subsequence of the input. *)
Theorem sanitizeEmailPart_whitelist (v : jsval) :
  match v with
  | VStr s =>
      sanitizeEmailPart v = filter (fun c => Spec.allowed c = true) s
      /\ Forall (fun c => Spec.allowed c = true) (sanitizeEmailPart v)
      /\ sublist (sanitizeEmailPart v) s
  | _ => sanitizeEmailPart v = []
  end
  /\ sanitizeEmailPart VNull = []
  /\ sanitizeEmailPart VUndefined = []
  /\ sanitizeEmailPart (VNum 123) = [].
Proof.
  split; [| repeat split].
  destruct v as [| | b | z | s | l | props]; try reflexivity.
  - unfold sanitizeEmailPart. simpl. rewrite orb_true_r. reflexivity.
  - unfold sanitizeEmailPart. simpl. rewrite orb_true_r. reflexivity.
  - split; [apply sanitize_string |].
    split; [apply sanitize_allowed |].
    rewrite sanitize_string. apply sublist_filter.
Qed.

End Sanitizer.

(** ** The validator *)

Section Validator.

Import EmailProtection.

Lemma isValidEmail_string (s : jsstring) :
  isValidEmail (VStr s) = regex_match emailRegex s.
Proof.
  destruct s as [| c s]; [reflexivity |].
  unfold isValidEmail. cbn [truthy is_string].
  rewrite bool_decide_eq_false_2 by discriminate. reflexivity.
Qed.

(** C3: [isValidEmail] answers true exactly for the strings of the shape
    local-part [@] domain-labels [.] tld, with a non-empty local part over
    {letters, digits, '.', '_', '-', '+'}, non-empty domain labels over
    {letters, digits, '.', '-'} and a tld of at least two letters; it
    accepts "a@b.co" and "a.b+c@d-e.f.io" and rejects "a@b" and "@b.co". *)
Theorem isValidEmail_shape (v : jsval) :
  (isValidEmail v = true <-> exists s, v = VStr s /\ Spec.emailShape s)
  /\ isValidEmail (VStr (str "a@b.co")) = true
  /\ isValidEmail (VStr (str "a@b")) = false
  /\ isValidEmail (VStr (str "a.b+c@d-e.f.io")) = true
  /\ isValidEmail (VStr (str "@b.co")) = false.
Proof.
  split; [| repeat split; vm_compute; reflexivity].
  destruct v as [| | b | z | s | l | props];
    try (split; [discriminate | intros (s' & [=] & _)]).
  - unfold isValidEmail. simpl. rewrite orb_true_r.
    split; [discriminate | intros (s' & [=] & _)].
  - unfold isValidEmail. simpl. rewrite orb_true_r.
    split; [discriminate | intros (s' & [=] & _)].
  - rewrite isValidEmail_string, regex_match_spec, emailRegex_shape. split.
    + intros H. exists s. auto.
    + intros (s' & [= <-] & H). exact H.
Qed.

End Validator.

(** ** The heap *)

Section Heap.

Implicit Types (d : DOM) (e p : nid) (n nd : node).

Lemma lookup_snoc d n : (d ++ [n]) !! length d = Some n.
Proof. apply list_lookup_middle. reflexivity. Qed.

Lemma insert_snoc d n n' : <[length d := n']> (d ++ [n]) = d ++ [n'].
Proof.
  rewrite insert_app_r_alt by lia. rewrite Nat.sub_diag. reflexivity.
Qed.

Lemma lookup_old d (l : list node) e :
  (e < length d)%nat -> (d ++ l) !! e = d !! e.
Proof. intros H. apply lookup_app_l. exact H. Qed.

Lemma setAttribute_snoc d n (a : string) (v : jsstring) :
  Dom.setAttribute (d ++ [n]) (length d) a v
  = d ++ [Node (kind n) (<[a := v]> (attributes n))
               (parentNode n) (childNodes n)].
Proof.
  unfold Dom.setAttribute. rewrite lookup_snoc. apply insert_snoc.
Qed.

Lemma setTextContent_snoc d n (s : jsstring) :
  childNodes n = [] ->
  Dom.setTextContent (d ++ [n]) (length d) s
  = d ++ [Node (kind n) (attributes n) (parentNode n)
               (if bool_decide (s = []) then [] else [CText s])].
Proof.
  intros Hn. unfold Dom.setTextContent. rewrite lookup_snoc, Hn. simpl.
  rewrite lookup_snoc. apply insert_snoc.
Qed.

Lemma getAttribute_old d (l : list node) e (a : string) :
  (e < length d)%nat ->
  Dom.getAttribute (d ++ l) e a = Dom.getAttribute d e a.
Proof.
  intros H. unfold Dom.getAttribute. rewrite lookup_old by exact H.
  reflexivity.
Qed.

Lemma reflected_old d (l : list node) e (a : string) :
  (e < length d)%nat -> Dom.reflected (d ++ l) e a = Dom.reflected d e a.
Proof.
  intros H. unfold Dom.reflected. rewrite getAttribute_old by exact H.
  reflexivity.
Qed.

Lemma getParentNode_old d (l : list node) e :
  (e < length d)%nat -> Dom.getParentNode (d ++ l) e = Dom.getParentNode d e.
Proof.
  intros H. unfold Dom.getParentNode. rewrite lookup_old by exact H.
  reflexivity.
Qed.

Lemma getParentNode_Some d e p :
  Dom.getParentNode d e = Some p -> (e < length d)%nat.
Proof.
  unfold Dom.getParentNode. destruct (d !! e) eqn:He; [| discriminate].
  intros _. apply lookup_lt_Some in He. exact He.
Qed.

Lemma getAttribute_string d e (a : string) (s : jsstring) :
  Dom.getAttribute d e a = VStr s -> (e < length d)%nat.
Proof.
  unfold Dom.getAttribute. destruct (d !! e) eqn:He; [| discriminate].
  intros _. apply lookup_lt_Some in He. exact He.
Qed.

Lemma tagName_Some d e (t : string) :
  Dom.tagName d e = Some t -> (e < length d)%nat.
Proof.
  unfold Dom.tagName. destruct (d !! e) eqn:He; [| discriminate].
  intros _. apply lookup_lt_Some in He. exact He.
Qed.

(** More fuel and a larger heap read the same text. *)
Lemma textContent_upto_mono (f f' : nat) d d' e (s : jsstring) :
  (f <= f')%nat ->
  (forall i nd, d !! i = Some nd -> d' !! i = Some nd) ->
  Dom.textContent_upto f d e = Some s ->
  Dom.textContent_upto f' d' e = Some s.
Proof.
  intros Hf Hd. revert f' Hf e s.
  induction f as [| f IH]; intros f' Hf e s; simpl; [discriminate |].
  destruct f' as [| f']; [lia |]. simpl.
  destruct (d !! e) as [nd |] eqn:He; [| discriminate].
  rewrite (Hd _ _ He).
  intros H. apply fmap_Some in H as (ls & Hls & ->).
  apply fmap_Some. exists ls. split; [| reflexivity].
  apply mapM_Some in Hls. apply mapM_Some.
  eapply Forall2_impl; [exact Hls |].
  intros [t | c] y; simpl; [auto |].
  apply IH. lia.
Qed.

Lemma textContent_old d (l : list node) e :
  Dom.treeAt d e -> Dom.textContent (d ++ l) e = Dom.textContent d e.
Proof.
  intros [s Hs]. unfold Dom.textContent. rewrite Hs.
  erewrite textContent_upto_mono; [reflexivity | | | exact Hs].
  - rewrite length_app. lia.
  - intros i nd Hi. rewrite lookup_old; [exact Hi |].
    apply lookup_lt_Some in Hi. exact Hi.
Qed.

(** The text of an element that holds at most one text node. *)
Lemma textContent_leaf d e nd (s : jsstring) :
  d !! e = Some nd ->
  childNodes nd = (if bool_decide (s = []) then [] else [CText s]) ->
  Dom.textContent d e = s.
Proof.
  intros He Hc. unfold Dom.textContent. simpl. rewrite He, Hc.
  case_bool_decide as Hs; simpl; [congruence |].
  rewrite app_nil_r. reflexivity.
Qed.

(** *** [setParent] touches nothing but parent pointers *)

Lemma setParent_length (q : option nid) d e :
  length (Dom.setParent q d e) = length d.
Proof.
  unfold Dom.setParent. destruct (d !! e); [apply length_insert | reflexivity].
Qed.

Lemma setParent_lookup (q : option nid) d e i :
  Dom.setParent q d e !! i
  = (fun nd => Node (kind nd) (attributes nd)
                 (if bool_decide (i = e) then q else parentNode nd)
                 (childNodes nd)) <$> d !! i.
Proof.
  unfold Dom.setParent. destruct (d !! e) as [nd |] eqn:He.
  - destruct (decide (i = e)) as [-> | Hne].
    + rewrite list_lookup_insert_eq by (apply lookup_lt_Some in He; exact He).
      rewrite He. simpl. rewrite bool_decide_eq_true_2 by reflexivity.
      reflexivity.
    + rewrite list_lookup_insert_ne by congruence.
      rewrite bool_decide_eq_false_2 by exact Hne.
      destruct (d !! i) as [[]|]; reflexivity.
  - destruct (decide (i = e)) as [-> | Hne].
    + rewrite He. reflexivity.
    + rewrite bool_decide_eq_false_2 by exact Hne.
      destruct (d !! i) as [[]|]; reflexivity.
Qed.

Lemma foldl_setParent_length (q : option nid) (l : list nid) d :
  length (foldl (Dom.setParent q) d l) = length d.
Proof.
  revert d. induction l as [| x l IH]; intros d; simpl; [reflexivity |].
  rewrite IH. apply setParent_length.
Qed.

Lemma foldl_setParent_lookup (q : option nid) (l : list nid) d i :
  foldl (Dom.setParent q) d l !! i
  = (fun nd => Node (kind nd) (attributes nd)
                 (if bool_decide (i ∈ l) then q else parentNode nd)
                 (childNodes nd)) <$> d !! i.
Proof.
  revert d. induction l as [| x l IH]; intros d; simpl.
  - destruct (d !! i) as [[]|]; reflexivity.
  - rewrite IH, setParent_lookup.
    destruct (d !! i) as [nd |]; [| reflexivity]. simpl. do 2 f_equal.
    destruct (decide (i ∈ l)) as [Hin | Hnin].
    + rewrite !bool_decide_eq_true_2; [reflexivity | | exact Hin].
      apply list_elem_of_further. exact Hin.
    + rewrite (bool_decide_eq_false_2 (i ∈ l)) by exact Hnin.
      destruct (decide (i = x)) as [-> | Hne].
      * rewrite !bool_decide_eq_true_2; [reflexivity | | reflexivity].
        apply list_elem_of_here.
      * rewrite !bool_decide_eq_false_2; [reflexivity | | exact Hne].
        intros Hin. apply elem_of_cons in Hin as [? | ?]; auto.
Qed.

(** *** The [textContent] setter *)

Lemma setTextContent_lookup_self d e nd (s : jsstring) :
  d !! e = Some nd ->
  exists nd',
    Dom.setTextContent d e s !! e = Some nd'
    /\ kind nd' = kind nd /\ attributes nd' = attributes nd
    /\ childNodes nd' = (if bool_decide (s = []) then [] else [CText s]).
Proof.
  intros He. unfold Dom.setTextContent. rewrite He.
  rewrite foldl_setParent_lookup, He. simpl.
  rewrite list_lookup_insert_eq.
  - eexists. split; [reflexivity |]. simpl. auto.
  - rewrite foldl_setParent_length. apply lookup_lt_Some in He. exact He.
Qed.

Lemma setTextContent_lookup_other d e i (s : jsstring) :
  i <> e ->
  childNodes <$> Dom.setTextContent d e s !! i = childNodes <$> d !! i.
Proof.
  intros Hne. unfold Dom.setTextContent.
  destruct (d !! e) as [nd |] eqn:He; [| reflexivity].
  rewrite foldl_setParent_lookup, He. simpl.
  rewrite list_lookup_insert_ne by congruence.
  rewrite foldl_setParent_lookup.
  destruct (d !! i) as [[]|]; reflexivity.
Qed.

Lemma setTextContent_length d e (s : jsstring) :
  length (Dom.setTextContent d e s) = length d.
Proof.
  unfold Dom.setTextContent. destruct (d !! e) as [nd |]; [| reflexivity].
  destruct (foldl _ _ _ !! e);
    rewrite ?length_insert; apply foldl_setParent_length.
Qed.

Lemma setTextContent_text d e (s : jsstring) :
  is_Some (d !! e) -> Dom.textContent (Dom.setTextContent d e s) e = s.
Proof.
  intros [nd He].
  destruct (setTextContent_lookup_self d e nd s He) as (nd' & H1 & _ & _ & H2).
  eapply textContent_leaf; eassumption.
Qed.

(** A later assignment to another element does not change the text set. *)
Lemma setTextContent_text_other d e e' (s s' : jsstring) :
  e <> e' -> is_Some (d !! e) ->
  Dom.textContent
    (Dom.setTextContent (Dom.setTextContent d e s) e' s') e = s.
Proof.
  intros Hne [nd He].
  destruct (setTextContent_lookup_self d e nd s He) as (nd' & H1 & _ & _ & H2).
  pose proof (setTextContent_lookup_other
                (Dom.setTextContent d e s) e' e s' Hne) as H.
  rewrite H1 in H. simpl in H.
  destruct (Dom.setTextContent (Dom.setTextContent d e s) e' s' !! e)
    as [nd'' |] eqn:He''; [| discriminate].
  injection H as H.
  eapply textContent_leaf; [exact He'' | congruence].
Qed.

(** *** Replacing a child by a node just created *)

Lemma setParent_app_l (q : option nid) d (l : list node) e :
  (e < length d)%nat ->
  Dom.setParent q (d ++ l) e = Dom.setParent q d e ++ l.
Proof.
  intros He. unfold Dom.setParent. rewrite lookup_old by exact He.
  destruct (d !! e); [| reflexivity].
  apply insert_app_l. exact He.
Qed.

Lemma setParent_snoc (q : option nid) d n :
  Dom.setParent q (d ++ [n]) (length d)
  = d ++ [Node (kind n) (attributes n) q (childNodes n)].
Proof.
  unfold Dom.setParent. rewrite lookup_snoc. apply insert_snoc.
Qed.

Lemma replaceChild_snoc d n el p nd :
  Dom.getParentNode d el = Some p ->
  d !! p = Some nd ->
  Dom.replaceChild (d ++ [n]) p (length d) el
  = Some (Dom.setParent None
            (<[p := Node (kind nd) (attributes nd) (parentNode nd)
                      (Spec.swapped el (length d) (childNodes nd))]> d) el
          ++ [Node (kind n) (attributes n) (Some p) (childNodes n)]).
Proof.
  intros Hel Hp.
  pose proof (getParentNode_Some _ _ _ Hel) as Hlt.
  pose proof (lookup_lt_Some _ _ _ Hp) as Hplt.
  unfold Dom.replaceChild.
  rewrite getParentNode_old, Hel by exact Hlt.
  rewrite bool_decide_eq_true_2 by reflexivity.
  rewrite lookup_old, Hp by exact Hplt.
  rewrite insert_app_l by exact Hplt.
  rewrite setParent_app_l by (rewrite length_insert; exact Hlt).
  set (d0 := Dom.setParent None _ el).
  assert (Hlen : length d0 = length d).
  { unfold d0. rewrite setParent_length. apply length_insert. }
  rewrite <- Hlen, setParent_snoc. reflexivity.
Qed.

(** What has become of the old nodes once the child is replaced. *)
Lemma replaced_lookup d el p nd i :
  d !! p = Some nd ->
  Dom.setParent None
    (<[p := Node (kind nd) (attributes nd) (parentNode nd)
              (Spec.swapped el (length d) (childNodes nd))]> d) el !! i
  = (fun x => Node (kind x) (attributes x)
                (if bool_decide (i = el) then None else parentNode x)
                (if bool_decide (i = p)
                 then Spec.swapped el (length d) (childNodes x)
                 else childNodes x)) <$> d !! i.
Proof.
  intros Hp. rewrite setParent_lookup.
  destruct (decide (i = p)) as [-> | Hne].
  - rewrite list_lookup_insert_eq by (apply lookup_lt_Some in Hp; exact Hp).
    rewrite Hp. simpl. rewrite (bool_decide_eq_true_2 (p = p)) by reflexivity.
    reflexivity.
  - rewrite list_lookup_insert_ne by congruence.
    rewrite (bool_decide_eq_false_2 (i = p)) by exact Hne.
    reflexivity.
Qed.

Lemma replacedIn_length d p el :
  length (Spec.replacedIn d p el) = length d.
Proof.
  unfold Spec.replacedIn. destruct (d !! p); [| reflexivity].
  rewrite setParent_length. apply length_insert.
Qed.

Lemma replacedIn_lookup d el p nd i :
  d !! p = Some nd ->
  Spec.replacedIn d p el !! i
  = (fun x => Node (kind x) (attributes x)
                (if bool_decide (i = el) then None else parentNode x)
                (if bool_decide (i = p)
                 then Spec.swapped el (length d) (childNodes x)
                 else childNodes x)) <$> d !! i.
Proof.
  intros Hp. unfold Spec.replacedIn. rewrite Hp.
  apply replaced_lookup. exact Hp.
Qed.

(** *** Attributes *)

Lemma getAttribute_setAttribute_eq d e (a : string) (v : jsstring) :
  (e < length d)%nat ->
  Dom.getAttribute (Dom.setAttribute d e a v) e a = VStr v.
Proof.
  intros He. unfold Dom.getAttribute, Dom.setAttribute.
  destruct (lookup_lt_is_Some_2 _ _ He) as [nd Hnd]. rewrite Hnd.
  rewrite list_lookup_insert_eq by exact He. simpl.
  rewrite lookup_insert_eq. reflexivity.
Qed.

Lemma getAttribute_setAttribute_ne d e (a b : string) (v : jsstring) i :
  a <> b ->
  Dom.getAttribute (Dom.setAttribute d e a v) i b = Dom.getAttribute d i b.
Proof.
  intros Hab. unfold Dom.getAttribute, Dom.setAttribute.
  destruct (d !! e) as [nd |] eqn:He; [| reflexivity].
  destruct (decide (i = e)) as [-> | Hne].
  - rewrite list_lookup_insert_eq by (apply lookup_lt_Some in He; exact He).
    rewrite He. simpl. rewrite lookup_insert_ne by exact Hab. reflexivity.
  - rewrite list_lookup_insert_ne by congruence. reflexivity.
Qed.

Lemma setAttribute_length d e (a : string) (v : jsstring) :
  length (Dom.setAttribute d e a v) = length d.
Proof.
  unfold Dom.setAttribute. destruct (d !! e); [apply length_insert |].
  reflexivity.
Qed.

(** *** Queries *)

Lemma selects_exists d (sel : Dom.selector) e :
  Dom.selects d sel e = true -> is_Some (d !! e).
Proof.
  assert (Htag : forall t, Dom.hasTag d t e = true -> is_Some (d !! e)).
  { intros t H. apply bool_decide_eq_true in H.
    apply tagName_Some in H. apply lookup_lt_is_Some. exact H. }
  destruct sel as [c | t names | t | t]; simpl; intros H;
    apply andb_true_iff in H as [H _]; try (eapply Htag; exact H).
  apply bool_decide_eq_true in H as [t H].
  apply tagName_Some in H. apply lookup_lt_is_Some. exact H.
Qed.

Lemma querySelector_exists d (root : nid) (sel : Dom.selector) e :
  Dom.querySelector d root sel = Some e -> is_Some (d !! e).
Proof.
  unfold Dom.querySelector, Dom.querySelectorAll. intros H.
  apply head_Some_elem_of, list_elem_of_filter in H as [H _].
  eapply selects_exists. exact H.
Qed.

(** *** The document once the anchor is in place *)

Lemma anchor_lookup d p el n :
  (Spec.replacedIn d p el ++ [n]) !! length d = Some n.
Proof. rewrite <- (replacedIn_length d p el). apply lookup_snoc. Qed.

Lemma anchor_getAttribute d p el n (a : string) :
  Dom.getAttribute (Spec.replacedIn d p el ++ [n]) (length d) a
  = match attributes n !! a with Some s => VStr s | None => VNull end.
Proof. unfold Dom.getAttribute. rewrite anchor_lookup. reflexivity. Qed.

Lemma anchor_text d p el n (label : jsstring) :
  childNodes n = Spec.leaf label ->
  Dom.textContent (Spec.replacedIn d p el ++ [n]) (length d) = label.
Proof.
  intros Hn. eapply textContent_leaf; [apply anchor_lookup | exact Hn].
Qed.

Lemma anchored_length d p el n :
  length (Spec.replacedIn d p el ++ [n]) = S (length d).
Proof. rewrite length_app, replacedIn_length. simpl. lia. Qed.

Lemma anchored_old d p el n i :
  is_Some (d !! p) ->
  (i < length d)%nat ->
  Dom.tagName (Spec.replacedIn d p el ++ [n]) i = Dom.tagName d i
  /\ forall a : string,
       Dom.getAttribute (Spec.replacedIn d p el ++ [n]) i a
       = Dom.getAttribute d i a.
Proof.
  intros [nd Hnd] Hi.
  unfold Dom.tagName, Dom.getAttribute.
  rewrite lookup_old by (rewrite replacedIn_length; exact Hi).
  rewrite (replacedIn_lookup d el p nd i Hnd).
  destruct (d !! i) as [x |]; simpl; auto.
Qed.

Lemma anchored_children d p el n nd :
  d !! p = Some nd ->
  childNodes <$> (Spec.replacedIn d p el ++ [n]) !! p
  = Some (Spec.swapped el (length d) (childNodes nd)).
Proof.
  intros Hnd. pose proof (lookup_lt_Some _ _ _ Hnd) as Hp.
  rewrite lookup_old by (rewrite replacedIn_length; exact Hp).
  rewrite (replacedIn_lookup d el p nd p Hnd), Hnd. simpl.
  rewrite (bool_decide_eq_true_2 (p = p)) by reflexivity. reflexivity.
Qed.

Lemma anchored_element_detached d p el n :
  is_Some (d !! p) ->
  (el < length d)%nat ->
  Dom.getParentNode (Spec.replacedIn d p el ++ [n]) el = None.
Proof.
  intros [nd Hnd] Hel. unfold Dom.getParentNode.
  rewrite lookup_old by (rewrite replacedIn_length; exact Hel).
  rewrite (replacedIn_lookup d el p nd el Hnd).
  destruct (d !! el) as [x |]; simpl; [| reflexivity].
  rewrite (bool_decide_eq_true_2 (el = el)) by reflexivity. reflexivity.
Qed.

End Heap.

(** ** URI encoding of sanitized text *)

Section Uri.

Import EmailProtection.

Lemma Encode_unescaped (cc : charClass) (s : jsstring) :
  Forall (fun c => class_test cc c = true) s -> Encode cc s = Some s.
Proof.
  induction 1 as [| c s Hc _ IH]; simpl; [reflexivity |].
  rewrite Hc, IH. reflexivity.
Qed.

Lemma Encode_no_surrogate (cc : charClass) (s : jsstring) :
  Forall (fun c => c < 256) s -> is_Some (Encode cc s).
Proof.
  induction 1 as [| c s Hc _ [r IH]]; simpl; [eauto |].
  rewrite IH. simpl.
  destruct (class_test cc c); [eauto |].
  replace (isTrailSurrogate c) with false
    by (symmetry; apply andb_false_intro1, N.leb_gt; simpl; lia).
  replace (isLeadSurrogate c) with false
    by (symmetry; apply andb_false_intro1, N.leb_gt; simpl; lia).
  eauto.
Qed.

Lemma allowed_low (c : codeunit) : Spec.allowed c = true -> c < 256.
Proof.
  intros H. destruct (N.lt_ge_cases c 256) as [Hlt | Hge]; [exact Hlt |].
  assert (Hf : forall c, 256 <= c -> Spec.allowed c = false) by high_false.
  rewrite Hf in H by exact Hge. discriminate.
Qed.

Lemma allowed_encodeURI (c : codeunit) :
  Spec.allowed c = true ->
  class_test (CharClass false (items uriUnescaped ++ uriReservedHash)) c
  = true.
Proof.
  intros H. pose proof (allowed_low c H) as Hlt.
  assert (Htab :
    forallb (fun c =>
               implb (Spec.allowed c)
                 (class_test
                    (CharClass false (items uriUnescaped ++ uriReservedHash))
                    c))
      low_units = true) by (vm_compute; reflexivity).
  rewrite forallb_forall in Htab.
  apply low_units_complete, list_elem_of_In, Htab in Hlt.
  rewrite H in Hlt. exact Hlt.
Qed.

(** The assembled e-mail holds nothing that [encodeURI] escapes. *)
Lemma email_encodeURI (vu vd vt : jsval) :
  let email :=
    sanitizeEmailPart vu ++ str "@" ++ sanitizeEmailPart vd
    ++ str "." ++ sanitizeEmailPart vt in
  encodeURI_pure email = Some email.
Proof.
  cbv zeta. apply Encode_unescaped.
  assert (Hs : forall v,
    Forall (fun c =>
              class_test
                (CharClass false (items uriUnescaped ++ uriReservedHash)) c
              = true)
      (sanitizeEmailPart v)).
  { intros v. eapply Forall_impl; [apply sanitize_allowed |].
    intros c. apply allowed_encodeURI. }
  repeat apply Forall_app_2; auto.
  - repeat constructor.
  - repeat constructor.
Qed.

(** [encodeURIComponent] never throws on sanitized text. *)
Lemma sanitized_encodeURIComponent (v : jsval) :
  is_Some (encodeURIComponent_pure (sanitizeEmailPart v)).
Proof.
  apply Encode_no_surrogate.
  eapply Forall_impl; [apply sanitize_allowed |].
  intros c. apply allowed_low.
Qed.

Lemma emailOf_encodeURI (d : DOM) (el : nid) :
  encodeURI_pure (Spec.emailOf d el) = Some (Spec.emailOf d el).
Proof. apply (email_encodeURI _ _ _). Qed.

End Uri.

(** ** Running the callbacks *)

Section Steps.

Import EmailProtection.

Variable innerText : DOM -> nid -> jsstring.

Implicit Types (d : DOM) (tr : list event) (el p : nid).

Lemma blank_spec (s : jsstring) : blank s = bool_decide (s = []).
Proof.
  unfold blank. simpl. rewrite negb_involutive. reflexivity.
Qed.

Lemma getElementText_run el (w : world) :
  getElementText innerText el w
  = (Ok (elementText innerText (document w) el), w).
Proof.
  unfold getElementText, elementText, mbind, JS_bind, textContent, reads.
  cbv zeta.
  destruct (truthy (VStr (Dom.textContent (document w) el)));
    [reflexivity |].
  destruct (truthy (VStr (innerText (document w) el))); reflexivity.
Qed.

(** *** Skipped elements *)

Lemma emailSpanStep_missing d tr el :
  Spec.userOf d el = [] \/ Spec.domainOf d el = [] \/ Spec.tldOf d el = [] ->
  emailSpanStep innerText el (World d tr)
  = (Ok tt,
     World d (tr ++ [ConsoleWarn "Email protection: Missing data attributes"
                       []])).
Proof.
  intros H.
  unfold emailSpanStep, try_catch, mbind, JS_bind, fmap, JS_fmap,
    getAttribute, reads.
  cbn [document].
  fold (Spec.userOf d el) (Spec.domainOf d el) (Spec.tldOf d el).
  rewrite !blank_spec.
  replace (bool_decide (Spec.userOf d el = [])
           || bool_decide (Spec.domainOf d el = [])
           || bool_decide (Spec.tldOf d el = [])) with true; [reflexivity |].
  symmetry. rewrite !orb_true_iff, !bool_decide_eq_true. tauto.
Qed.

Lemma parts_present d el :
  Spec.userOf d el <> [] -> Spec.domainOf d el <> [] ->
  Spec.tldOf d el <> [] ->
  blank (Spec.userOf d el) || blank (Spec.domainOf d el)
  || blank (Spec.tldOf d el) = false.
Proof.
  intros Hu Hd Ht. rewrite !blank_spec.
  rewrite !bool_decide_eq_false_2 by assumption. reflexivity.
Qed.

Lemma emailSpanStep_invalid d tr el :
  Spec.userOf d el <> [] -> Spec.domainOf d el <> [] ->
  Spec.tldOf d el <> [] ->
  isValidEmail (VStr (Spec.emailOf d el)) = false ->
  emailSpanStep innerText el (World d tr)
  = (Ok tt,
     World d (tr ++ [ConsoleWarn "Email protection: Invalid email format:"
                       [VStr (Spec.emailOf d el)]])).
Proof.
  intros Hu Hd Ht Hv.
  unfold emailSpanStep, try_catch, mbind, JS_bind, fmap, JS_fmap,
    getAttribute, reads.
  cbn [document].
  fold (Spec.userOf d el) (Spec.domainOf d el) (Spec.tldOf d el).
  rewrite parts_present by assumption. cbv zeta.
  change (Spec.userOf d el ++ str "@" ++ Spec.domainOf d el
          ++ str "." ++ Spec.tldOf d el) with (Spec.emailOf d el).
  rewrite Hv. reflexivity.
Qed.

(** Without a parent element, or inside an anchor, nothing is done. *)
Lemma emailSpanStep_detached d tr el :
  Spec.userOf d el <> [] -> Spec.domainOf d el <> [] ->
  Spec.tldOf d el <> [] ->
  isValidEmail (VStr (Spec.emailOf d el)) = true ->
  match Dom.parentElement d el with
  | Some p => Dom.tagName d p = Some "A"%string
  | None => True
  end ->
  emailSpanStep innerText el (World d tr) = (Ok tt, World d tr).
Proof.
  intros Hu Hd Ht Hv Hp.
  unfold emailSpanStep, try_catch, mbind, JS_bind, fmap, JS_fmap,
    getAttribute, reads.
  cbn [document].
  fold (Spec.userOf d el) (Spec.domainOf d el) (Spec.tldOf d el).
  rewrite parts_present by assumption. cbv zeta.
  change (Spec.userOf d el ++ str "@" ++ Spec.domainOf d el
          ++ str "." ++ Spec.tldOf d el) with (Spec.emailOf d el).
  rewrite Hv.
  unfold parentElement, reads. cbn [document negb].
  destruct (Dom.parentElement d el) as [p |].
  - unfold tagName, reads. cbn [document]. rewrite Hp.
    rewrite (bool_decide_eq_true_2 (Some "A"%string = Some "A"%string))
      by reflexivity.
    rewrite andb_false_r. reflexivity.
  - reflexivity.
Qed.

Lemma parentElement_parentNode d el p :
  Dom.parentElement d el = Some p ->
  Dom.getParentNode d el = Some p /\ is_Some (d !! p).
Proof.
  unfold Dom.parentElement.
  destruct (Dom.getParentNode d el) as [q |]; [| discriminate].
  destruct (Dom.tagName d q) as [t |] eqn:Hq; [| discriminate].
  intros [= ->]. split; [reflexivity |].
  apply tagName_Some in Hq. apply lookup_lt_is_Some. exact Hq.
Qed.

Lemma emailSpanStep_link d tr el p :
  Spec.userOf d el <> [] -> Spec.domainOf d el <> [] ->
  Spec.tldOf d el <> [] ->
  isValidEmail (VStr (Spec.emailOf d el)) = true ->
  Dom.parentElement d el = Some p ->
  Dom.tagName d p <> Some "A"%string ->
  let cls := Dom.reflected d el "class" in
  let email := Spec.emailOf d el in
  let label := elementText innerText (d ++ [Spec.emailDraft cls email]) el in
  emailSpanStep innerText el (World d tr)
  = (Ok tt,
     World (Spec.replacedIn d p el
            ++ [Spec.emailAnchor cls email label email (Some p)])
           tr).
Proof.
  intros Hu Hd Ht Hv Hpe Htag cls email label.
  destruct (parentElement_parentNode _ _ _ Hpe) as [Hp [nd Hnd]].
  pose proof (getParentNode_Some _ _ _ Hp) as Hlt.
  unfold emailSpanStep, try_catch, mbind, JS_bind, fmap, JS_fmap,
    getAttribute, reads.
  cbn [document].
  fold (Spec.userOf d el) (Spec.domainOf d el) (Spec.tldOf d el).
  rewrite parts_present by assumption. cbv zeta.
  change (Spec.userOf d el ++ str "@" ++ Spec.domainOf d el
          ++ str "." ++ Spec.tldOf d el) with (Spec.emailOf d el).
  rewrite Hv.
  unfold parentElement, reads. cbn [document negb]. rewrite Hpe.
  unfold tagName, reads. cbn [document].
  rewrite (bool_decide_eq_true_2 (is_Some (Some p))) by eauto.
  rewrite (bool_decide_eq_false_2 (Dom.tagName d p = Some "A"%string))
    by exact Htag.
  cbn [negb andb].
  unfold createElement, Dom.createElement, encodeURI, orThrow.
  cbn [document trace].
  rewrite emailOf_encodeURI.
  unfold mret, JS_ret, setAttribute, writes, className, reads.
  cbn [document trace].
  repeat rewrite (setAttribute_snoc d).
  cbn [kind attributes parentNode childNodes].
  rewrite reflected_old by exact Hlt. fold cls.
  repeat rewrite (setAttribute_snoc d).
  cbn [kind attributes parentNode childNodes].
  rewrite getElementText_run. cbn [document].
  change (Dom.toUpperCase "a") with "A"%string.
  fold (Spec.emailDraft cls (Spec.emailOf d el)). fold email. fold label.
  unfold setTextContent, writes. cbn [document trace].
  rewrite (setTextContent_snoc d) by reflexivity.
  repeat rewrite (setAttribute_snoc d).
  cbn [kind attributes parentNode childNodes].
  unfold parentNode_of, reads. cbn [document].
  rewrite getParentNode_old, Hp by exact Hlt.
  unfold replaceChild. cbn [document trace].
  erewrite replaceChild_snoc by eassumption.
  unfold Spec.replacedIn. rewrite Hnd. reflexivity.
Qed.

(** *** Anchors that carry the three attributes *)

Lemma emailLinkStep_missing d tr el :
  Spec.userOf d el = [] \/ Spec.domainOf d el = [] \/ Spec.tldOf d el = [] ->
  emailLinkStep el (World d tr)
  = (Ok tt,
     World d (tr ++ [ConsoleWarn
                       "Email protection: Missing data attributes in link"
                       []])).
Proof.
  clear innerText.
  intros H.
  unfold emailLinkStep, try_catch, mbind, JS_bind, fmap, JS_fmap,
    getAttribute, reads.
  cbn [document].
  fold (Spec.userOf d el) (Spec.domainOf d el) (Spec.tldOf d el).
  rewrite !blank_spec.
  replace (bool_decide (Spec.userOf d el = [])
           || bool_decide (Spec.domainOf d el = [])
           || bool_decide (Spec.tldOf d el = [])) with true; [reflexivity |].
  symmetry. rewrite !orb_true_iff, !bool_decide_eq_true. tauto.
Qed.

Lemma emailLinkStep_invalid d tr el :
  Spec.userOf d el <> [] -> Spec.domainOf d el <> [] ->
  Spec.tldOf d el <> [] ->
  isValidEmail (VStr (Spec.emailOf d el)) = false ->
  emailLinkStep el (World d tr)
  = (Ok tt,
     World d (tr ++ [ConsoleWarn
                       "Email protection: Invalid email format in link:"
                       [VStr (Spec.emailOf d el)]])).
Proof.
  clear innerText.
  intros Hu Hd Ht Hv.
  unfold emailLinkStep, try_catch, mbind, JS_bind, fmap, JS_fmap,
    getAttribute, reads.
  cbn [document].
  fold (Spec.userOf d el) (Spec.domainOf d el) (Spec.tldOf d el).
  rewrite parts_present by assumption. cbv zeta.
  change (Spec.userOf d el ++ str "@" ++ Spec.domainOf d el
          ++ str "." ++ Spec.tldOf d el) with (Spec.emailOf d el).
  rewrite Hv. reflexivity.
Qed.

Lemma emailLinkStep_href d tr el :
  Spec.userOf d el <> [] -> Spec.domainOf d el <> [] ->
  Spec.tldOf d el <> [] ->
  isValidEmail (VStr (Spec.emailOf d el)) = true ->
  let email := Spec.emailOf d el in
  emailLinkStep el (World d tr)
  = (Ok tt,
     World (Dom.setAttribute
              (Dom.setAttribute
                 (Dom.setAttribute d el "href" (str "mailto:" ++ email))
                 el "aria-label" (str "Send email to " ++ email))
              el "rel" (str "noopener"))
           tr).
Proof.
  clear innerText.
  intros Hu Hd Ht Hv email.
  unfold emailLinkStep, try_catch, mbind, JS_bind, fmap, JS_fmap,
    getAttribute, reads.
  cbn [document].
  fold (Spec.userOf d el) (Spec.domainOf d el) (Spec.tldOf d el).
  rewrite parts_present by assumption. cbv zeta.
  change (Spec.userOf d el ++ str "@" ++ Spec.domainOf d el
          ++ str "." ++ Spec.tldOf d el) with (Spec.emailOf d el).
  rewrite Hv. cbn [negb].
  unfold encodeURI, orThrow.
  rewrite emailOf_encodeURI.
  reflexivity.
Qed.

(** *** Telegram placeholders *)

Lemma telegramStep_missing d tr el :
  Spec.usernameOf d el = [] ->
  telegramStep innerText el (World d tr)
  = (Ok tt,
     World d (tr ++ [ConsoleWarn "Telegram protection: Missing username" []])).
Proof.
  intros H.
  unfold telegramStep, try_catch, mbind, JS_bind, fmap, JS_fmap,
    getAttribute, reads.
  cbn [document].
  fold (Spec.usernameOf d el). rewrite H. reflexivity.
Qed.

Lemma telegramStep_link d tr el p (enc : jsstring) :
  Spec.usernameOf d el <> [] ->
  encodeURIComponent_pure (Spec.usernameOf d el) = Some enc ->
  Dom.getParentNode d el = Some p ->
  is_Some (d !! p) ->
  let cls := Dom.reflected d el "class" in
  let label :=
    elementText innerText (d ++ [Spec.telegramDraft cls enc]) el in
  telegramStep innerText el (World d tr)
  = (Ok tt,
     World (Spec.replacedIn d p el
            ++ [Spec.telegramAnchor cls enc label (Spec.usernameOf d el)
                  (Some p)])
           tr).
Proof.
  intros Hu Henc Hp [nd Hnd] cls label.
  pose proof (getParentNode_Some _ _ _ Hp) as Hlt.
  unfold telegramStep, try_catch, mbind, JS_bind, fmap, JS_fmap,
    getAttribute, reads.
  cbn [document].
  fold (Spec.usernameOf d el). rewrite blank_spec.
  rewrite bool_decide_eq_false_2 by exact Hu.
  unfold createElement, Dom.createElement, encodeURIComponent, orThrow.
  cbn [document trace]. rewrite Henc.
  unfold mret, JS_ret, setAttribute, writes, className, reads.
  cbn [document trace].
  repeat rewrite (setAttribute_snoc d).
  cbn [kind attributes parentNode childNodes].
  rewrite reflected_old by exact Hlt. fold cls.
  repeat rewrite (setAttribute_snoc d).
  cbn [kind attributes parentNode childNodes].
  rewrite getElementText_run. cbn [document].
  change (Dom.toUpperCase "a") with "A"%string.
  fold (Spec.telegramDraft cls enc). fold label.
  unfold setTextContent, writes. cbn [document trace].
  rewrite (setTextContent_snoc d) by reflexivity.
  rewrite (setAttribute_snoc d).
  cbn [kind attributes parentNode childNodes].
  unfold parentNode_of, reads. cbn [document].
  rewrite getParentNode_old, Hp by exact Hlt.
  unfold replaceChild. cbn [document trace].
  erewrite replaceChild_snoc by eassumption.
  unfold Spec.replacedIn. rewrite Hnd. reflexivity.
Qed.

End Steps.

(** ** The profile statistics updater *)

Section Stats.

Import GitHubMetrics.

Variable network : string -> fetchOutcome.

Implicit Types (d : DOM) (tr : list event).

Lemma request_url :
  (GITHUB_API_BASE +:+ "/users/" +:+ GITHUB_USERNAME)%string = Spec.apiUrl.
Proof. reflexivity. Qed.

Lemma fetchGitHubData_failure d tr (err : exn) :
  Spec.failure (network Spec.apiUrl) err ->
  fetchGitHubData network (World d tr)
  = (Ok VNull,
     World d (tr ++ [Fetched Spec.apiUrl;
                     ConsoleError "Error fetching GitHub data:" err])).
Proof.
  intros H.
  unfold fetchGitHubData, try_catch, fetch, mbind, JS_bind, emit, throw,
    console_error, mret, JS_ret.
  rewrite request_url. cbn [document trace].
  destruct H as [| status body Hst | status Hst];
    cbn [ok json orThrow throw emit document trace].
  - rewrite <- app_assoc. reflexivity.
  - replace ((200 <=? status)%Z && (status <=? 299)%Z) with false
      by (symmetry; apply andb_false_iff;
          rewrite !Z.leb_gt; lia).
    cbn [negb document trace]. rewrite <- app_assoc. reflexivity.
  - replace ((200 <=? status)%Z && (status <=? 299)%Z) with true
      by (symmetry; apply andb_true_iff; rewrite !Z.leb_le; lia).
    cbn [negb document trace]. unfold throw. cbn [document trace].
    rewrite <- app_assoc. reflexivity.
Qed.

Lemma fetchGitHubData_success d tr (status : Z) (data : jsval) :
  network Spec.apiUrl = Responded status (Some data) ->
  (200 <= status <= 299)%Z ->
  fetchGitHubData network (World d tr)
  = (Ok data, World d (tr ++ [Fetched Spec.apiUrl])).
Proof.
  intros Hn Hst.
  unfold fetchGitHubData, try_catch, fetch, mbind, JS_bind, emit, throw,
    console_error, mret, JS_ret.
  rewrite request_url. cbn [document trace]. rewrite Hn.
  cbn [ok json orThrow].
  replace ((200 <=? status)%Z && (status <=? 299)%Z) with true
    by (symmetry; apply andb_true_iff; rewrite !Z.leb_le; lia).
  reflexivity.
Qed.

Lemma assignText_run (target : option nid) (data v : jsval)
    (text : jsstring) (name : string) (w : world) :
  getField data name = Some v ->
  toNullableDOMString v = Some text ->
  match target with
  | Some e => assignText e data name
  | None => mret tt
  end w
  = (Ok tt, World (Spec.assigned (document w) target text) (trace w)).
Proof.
  intros Hv Ht. destruct target as [e |]; simpl.
  - unfold assignText, mbind, JS_bind, orThrow. rewrite Hv.
    unfold mret, JS_ret. cbn beta iota. rewrite Ht. reflexivity.
  - destruct w. reflexivity.
Qed.

(** A value without a text stops the assignment before the document is
    touched. *)
Lemma assignText_throws (e : nid) (data v : jsval) (name : string)
    (w : world) :
  getField data name = Some v ->
  toNullableDOMString v = None ->
  assignText e data name w = (Throw (Error "TypeError"), w).
Proof.
  intros Hv Ht. unfold assignText, mbind, JS_bind, orThrow.
  rewrite Hv. unfold mret, JS_ret. cbn beta iota. rewrite Ht. reflexivity.
Qed.

(** The run on a response that carries both counters. *)
Lemma updateStats_run d tr (status : Z) (data vf vg : jsval)
    (sf sg : jsstring) :
  network Spec.apiUrl = Responded status (Some data) ->
  (200 <= status <= 299)%Z ->
  getField data "followers" = Some vf ->
  getField data "following" = Some vg ->
  toNullableDOMString vf = Some sf ->
  toNullableDOMString vg = Some sg ->
  truthy data = true ->
  let c := Dom.querySelector d documentNode (Dom.ByClass "sidebar-stats") in
  let fe := c ≫= fun c => Dom.querySelector d c (Dom.FirstOfType "strong") in
  let ge := c ≫= fun c => Dom.querySelector d c (Dom.LastOfType "strong") in
  updateStats network (World d tr)
  = (Ok tt,
     World (Spec.assigned (Spec.assigned d fe sf) ge sg)
           (tr ++ [Fetched Spec.apiUrl])).
Proof.
  intros Hn Hst Hf Hg Hsf Hsg Ht c fe ge.
  unfold updateStats. unfold mbind at 1. unfold JS_bind at 1.
  rewrite (fetchGitHubData_success d tr status data Hn Hst), Ht.
  unfold mbind at 1. unfold JS_bind at 1.
  unfold querySelector at 1. unfold reads at 1. cbn [document].
  fold c. subst fe ge.
  destruct c as [c0 |]; [| reflexivity].
  unfold mbind, JS_bind, querySelector, reads. cbn [document option_bind].
  rewrite (assignText_run _ data vf sf "followers" _ Hf Hsf).
  rewrite (assignText_run _ data vg sg "following" _ Hg Hsg).
  reflexivity.
Qed.

Lemma text_of_42 : toNullableDOMString (VNum 42) = Some (str "42").
Proof. reflexivity. Qed.

Lemma text_of_7 : toNullableDOMString (VNum 7) = Some (str "7").
Proof. reflexivity. Qed.

Lemma getField_number_truthy (data : jsval) (name : string) (z : Z) :
  getField data name = Some (VNum z) -> truthy data = true.
Proof. destruct data; simpl; intros H; try discriminate; reflexivity. Qed.

(** C5: when the request fails (the network gives no response, the status
    is outside 200..299, or the body is not JSON) the error is logged, the
    document is left as it was, the run ends without an exception, and
    the trace holds the one request: nothing is tried again. *)
Theorem updateStats_failure_silent d tr (err : exn) :
  Spec.failure (network Spec.apiUrl) err ->
  updateStats network (World d tr)
  = (Ok tt,
     World d (tr ++ [Fetched Spec.apiUrl;
                     ConsoleError "Error fetching GitHub data:" err])).
Proof.
  intros H. unfold updateStats, mbind, JS_bind.
  rewrite (fetchGitHubData_failure d tr err H). reflexivity.
Qed.

(** C6, as the code has it: on a 2xx response whose body has followers 42
    and following 7, the element that [strong:first-of-type] selects ends
    with the text "42" and the one that [strong:last-of-type] selects with
    "7" when these are two different elements; an element that both
    selectors select ends with "7", the second assignment.  Where the
    container or a target is absent, that assignment is left out, and the
    run ends without an exception in every case. *)
Theorem updateStats_writes_counters d tr (status : Z) (data : jsval) :
  network Spec.apiUrl = Responded status (Some data) ->
  (200 <= status <= 299)%Z ->
  getField data "followers" = Some (VNum 42) ->
  getField data "following" = Some (VNum 7) ->
  let c := Dom.querySelector d documentNode (Dom.ByClass "sidebar-stats") in
  let fe := c ≫= fun c => Dom.querySelector d c (Dom.FirstOfType "strong") in
  let ge := c ≫= fun c => Dom.querySelector d c (Dom.LastOfType "strong") in
  let run := updateStats network (World d tr) in
  let d' := document (snd run) in
  fst run = Ok tt
  /\ trace (snd run) = tr ++ [Fetched Spec.apiUrl]
  /\ (forall f g, fe = Some f -> ge = Some g -> f <> g ->
      Dom.textContent d' f = str "42" /\ Dom.textContent d' g = str "7")
  /\ (forall f, fe = Some f -> ge <> Some f ->
      Dom.textContent d' f = str "42")
  /\ (forall g, ge = Some g -> Dom.textContent d' g = str "7")
  /\ (c = None -> d' = d)
  /\ (fe = None -> d' = Spec.assigned d ge (str "7"))
  /\ (ge = None -> d' = Spec.assigned d fe (str "42")).
Proof.
  intros Hn Hst Hf Hg c fe ge run d'.
  pose proof (updateStats_run d tr status data _ _ _ _ Hn Hst Hf Hg
                text_of_42 text_of_7
                (getField_number_truthy _ _ _ Hf)) as Hrun.
  cbv zeta in Hrun. fold c in Hrun. fold fe ge in Hrun.
  subst d' run. rewrite Hrun. cbn [fst snd document trace].
  assert (Hfe : forall f, fe = Some f -> is_Some (d !! f)).
  { intros f H. subst fe. destruct c as [c0 |]; [| discriminate].
    eapply querySelector_exists. exact H. }
  assert (Hge : forall g, ge = Some g -> is_Some (d !! g)).
  { intros g H. subst ge. destruct c as [c0 |]; [| discriminate].
    eapply querySelector_exists. exact H. }
  assert (Hfirst : forall f, fe = Some f -> ge <> Some f ->
            Dom.textContent
              (Spec.assigned (Spec.assigned d fe (str "42")) ge (str "7")) f
            = str "42").
  { intros f Hf' Hne. rewrite Hf'. simpl.
    destruct ge as [g |] eqn:Hg'; simpl.
    - apply setTextContent_text_other; [congruence | auto].
    - apply setTextContent_text. auto. }
  assert (Hlast : forall g, ge = Some g ->
            Dom.textContent
              (Spec.assigned (Spec.assigned d fe (str "42")) ge (str "7")) g
            = str "7").
  { intros g Hg'. rewrite Hg'. simpl.
    apply setTextContent_text. apply lookup_lt_is_Some.
    destruct fe as [f |]; simpl.
    - rewrite setTextContent_length. apply lookup_lt_is_Some. auto.
    - apply lookup_lt_is_Some. auto. }
  split; [reflexivity |]. split; [reflexivity |].
  split.
  { intros f g Hf' Hg' Hne. split; [apply Hfirst | apply Hlast]; auto.
    congruence. }
  split; [exact Hfirst |]. split; [exact Hlast |].
  split.
  { intros Hc. subst fe ge. rewrite Hc. reflexivity. }
  split.
  { intros ->. reflexivity. }
  intros ->. reflexivity.
Qed.

End Stats.

(** ** The claims about the contact obfuscator *)

Section Obfuscator.

Import EmailProtection.

Variable innerText : DOM -> nid -> jsstring.

Implicit Types (d : DOM) (tr : list event) (el p : nid).

Lemma emailReady_false d el :
  Spec.emailReady d el = false ->
  (Spec.userOf d el = [] \/ Spec.domainOf d el = [] \/ Spec.tldOf d el = [])
  \/ (Spec.userOf d el <> [] /\ Spec.domainOf d el <> []
      /\ Spec.tldOf d el <> []
      /\ isValidEmail (VStr (Spec.emailOf d el)) = false).
Proof.
  unfold Spec.emailReady. intros H.
  destruct (decide (Spec.userOf d el = [])) as [| Hu]; [tauto |].
  destruct (decide (Spec.domainOf d el = [])) as [| Hd]; [tauto |].
  destruct (decide (Spec.tldOf d el = [])) as [| Ht]; [tauto |].
  right. rewrite !bool_decide_eq_true_2 in H by assumption.
  simpl in H. auto.
Qed.

Lemma emailSpanStep_skips d tr el :
  Spec.emailReady d el = false ->
  exists msg args,
    emailSpanStep innerText el (World d tr)
    = (Ok tt, World d (tr ++ [ConsoleWarn msg args])).
Proof.
  intros H. apply emailReady_false in H as [H | (Hu & Hd & Ht & Hv)].
  - do 2 eexists. apply emailSpanStep_missing. exact H.
  - do 2 eexists. apply emailSpanStep_invalid; assumption.
Qed.

Lemma emailLinkStep_skips d tr el :
  Spec.emailReady d el = false ->
  exists msg args,
    emailLinkStep el (World d tr)
    = (Ok tt, World d (tr ++ [ConsoleWarn msg args])).
Proof.
  intros H. apply emailReady_false in H as [H | (Hu & Hd & Ht & Hv)].
  - do 2 eexists. apply emailLinkStep_missing. exact H.
  - do 2 eexists. apply emailLinkStep_invalid; assumption.
Qed.

Lemma telegramStep_skips d tr el :
  Spec.telegramReady d el = false ->
  exists msg args,
    telegramStep innerText el (World d tr)
    = (Ok tt, World d (tr ++ [ConsoleWarn msg args])).
Proof.
  unfold Spec.telegramReady. intros H.
  apply bool_decide_eq_false in H.
  do 2 eexists. apply telegramStep_missing.
  destruct (decide (Spec.usernameOf d el = [])); [assumption | contradiction].
Qed.

(** C2: in each of the three passes an element is turned into a link (the
    document changes at all) only if its parts are present and non-empty
    after sanitization and, for the two e-mail passes, the assembled
    address passes [isValidEmail]; otherwise the document is left as it
    was and one warning is logged. *)
Theorem placeholder_linked_only_if_ready d tr el :
  let span := emailSpanStep innerText el (World d tr) in
  let link := emailLinkStep el (World d tr) in
  let tg := telegramStep innerText el (World d tr) in
  ((document (snd span) <> d -> Spec.emailReady d el = true)
   /\ (Spec.emailReady d el = false ->
       exists msg args,
         span = (Ok tt, World d (tr ++ [ConsoleWarn msg args]))))
  /\ ((document (snd link) <> d -> Spec.emailReady d el = true)
      /\ (Spec.emailReady d el = false ->
          exists msg args,
            link = (Ok tt, World d (tr ++ [ConsoleWarn msg args]))))
  /\ ((document (snd tg) <> d -> Spec.telegramReady d el = true)
      /\ (Spec.telegramReady d el = false ->
          exists msg args,
            tg = (Ok tt, World d (tr ++ [ConsoleWarn msg args])))).
Proof.
  cbv zeta. repeat split.
  - intros Hch. destruct (Spec.emailReady d el) eqn:Hr; [reflexivity |].
    destruct (emailSpanStep_skips d tr el Hr) as (msg & args & Heq).
    rewrite Heq in Hch. contradiction.
  - apply emailSpanStep_skips.
  - intros Hch. destruct (Spec.emailReady d el) eqn:Hr; [reflexivity |].
    destruct (emailLinkStep_skips d tr el Hr) as (msg & args & Heq).
    rewrite Heq in Hch. contradiction.
  - apply emailLinkStep_skips.
  - intros Hch. destruct (Spec.telegramReady d el) eqn:Hr; [reflexivity |].
    destruct (telegramStep_skips d tr el Hr) as (msg & args & Heq).
    rewrite Heq in Hch. contradiction.
  - apply telegramStep_skips.
Qed.

(** C7: a pass-1 placeholder one of whose three parts is missing or
    sanitizes to the empty string (one without [data-tld], say) is left
    unmodified, and exactly one warning is emitted for it. *)
Theorem emailSpan_missing_part_warned d tr el (name : string) :
  name ∈ ["data-user"; "data-domain"; "data-tld"]%string ->
  sanitizeEmailPart (Dom.getAttribute d el name) = [] ->
  emailSpanStep innerText el (World d tr)
  = (Ok tt,
     World d (tr ++ [ConsoleWarn "Email protection: Missing data attributes"
                       []])).
Proof.
  intros Hin Hs. apply emailSpanStep_missing.
  unfold Spec.userOf, Spec.domainOf, Spec.tldOf.
  repeat (apply elem_of_cons in Hin as [-> | Hin]; [tauto |]).
  apply elem_of_nil in Hin. contradiction.
Qed.

(** C10: in pass 1 an element without a parent element is never replaced:
    the document stays as it was, also when its three parts are non-empty
    and the address is valid, and then nothing is logged either. *)
Theorem emailSpan_without_parent_kept d tr el :
  Dom.parentElement d el = None ->
  document (snd (emailSpanStep innerText el (World d tr))) = d
  /\ (Spec.emailReady d el = true ->
      emailSpanStep innerText el (World d tr) = (Ok tt, World d tr)).
Proof.
  intros Hp.
  assert (Hready : Spec.emailReady d el = true ->
                   emailSpanStep innerText el (World d tr)
                   = (Ok tt, World d tr)).
  { unfold Spec.emailReady. intros H.
    apply andb_true_iff in H as [H Hv].
    apply andb_true_iff in H as [H Ht].
    apply andb_true_iff in H as [Hu Hd].
    apply bool_decide_eq_true in Hu, Hd, Ht.
    apply emailSpanStep_detached; try assumption.
    rewrite Hp. exact I. }
  split; [| exact Hready].
  destruct (Spec.emailReady d el) eqn:Hr.
  - rewrite Hready by reflexivity. reflexivity.
  - destruct (emailSpanStep_skips d tr el Hr) as (msg & args & ->).
    reflexivity.
Qed.

(** C9: with non-empty sanitized parts the assembled address is a fixed
    point of [encodeURI]; hence the [href] that pass 2 writes on the anchor,
    and the one that pass 1 gives the anchor it creates, is "mailto:"
    followed by the address, character for character. *)
Theorem mailto_href_not_escaped (vu vd vt : jsval) d tr el :
  let email :=
    sanitizeEmailPart vu ++ str "@" ++ sanitizeEmailPart vd
    ++ str "." ++ sanitizeEmailPart vt in
  sanitizeEmailPart vu <> [] ->
  sanitizeEmailPart vd <> [] ->
  sanitizeEmailPart vt <> [] ->
  encodeURI_pure email = Some email
  /\ (Dom.getAttribute d el "data-user" = vu ->
      Dom.getAttribute d el "data-domain" = vd ->
      Dom.getAttribute d el "data-tld" = vt ->
      isValidEmail (VStr email) = true ->
      Dom.getAttribute
        (document (snd (emailLinkStep el (World d tr)))) el "href"
      = VStr (str "mailto:" ++ email)
      /\ forall p,
          Dom.parentElement d el = Some p ->
          Dom.tagName d p <> Some "A"%string ->
          Dom.getAttribute
            (document (snd (emailSpanStep innerText el (World d tr))))
            (length d) "href"
          = VStr (str "mailto:" ++ email)).
Proof.
  intros email Hu Hd Ht. split; [apply email_encodeURI |].
  intros <- <- <- Hv.
  change email with (Spec.emailOf d el) in *.
  fold (Spec.userOf d el) in Hu. fold (Spec.domainOf d el) in Hd.
  fold (Spec.tldOf d el) in Ht.
  split.
  - rewrite emailLinkStep_href by assumption. cbn [snd document].
    rewrite !(getAttribute_setAttribute_ne _ _ _ "href") by discriminate.
    apply getAttribute_setAttribute_eq.
    unfold Spec.userOf in Hu.
    destruct (Dom.getAttribute d el "data-user") as [| | | | s | |] eqn:Ha;
      try (exfalso; apply Hu; reflexivity).
    + exfalso. apply Hu. unfold sanitizeEmailPart. simpl.
      rewrite orb_true_r. reflexivity.
    + exfalso. apply Hu. unfold sanitizeEmailPart. simpl.
      rewrite orb_true_r. reflexivity.
    + eapply getAttribute_string. exact Ha.
  - intros p Hp Htag.
    rewrite (emailSpanStep_link innerText d tr el p) by assumption.
    cbn [snd document]. rewrite anchor_getAttribute.
    unfold Spec.emailAnchor, Spec.emailDraft. cbn [attributes].
    rewrite !lookup_insert_ne by discriminate.
    rewrite lookup_insert_eq. reflexivity.
Qed.

(** C4, as the code has it: for a pass-1 placeholder with
    data-user="john<script>", data-domain="example" and data-tld="com"
    (under a parent element that is no anchor) the sanitizer drops the two
    angle brackets and keeps the letters, so the [href] of the anchor is
    "mailto:johnscript@example.com".  No markup reaches the document: the
    one node added is the anchor, it holds at most a text node, and the
    nodes that were there keep their tags and attributes. *)
Theorem script_brackets_stripped d tr el p :
  Dom.getAttribute d el "data-user" = VStr (str "john<script>") ->
  Dom.getAttribute d el "data-domain" = VStr (str "example") ->
  Dom.getAttribute d el "data-tld" = VStr (str "com") ->
  Dom.parentElement d el = Some p ->
  Dom.tagName d p <> Some "A"%string ->
  let d' := document (snd (emailSpanStep innerText el (World d tr))) in
  let link := length d in
  Dom.getAttribute d' link "href"
  = VStr (str "mailto:johnscript@example.com")
  /\ Dom.getAttribute d' link "aria-label"
     = VStr (str "Send email to johnscript@example.com")
  /\ Dom.tagName d' link = Some "A"%string
  /\ length d' = S (length d)
  /\ (exists label, childNodes <$> d' !! link = Some (Spec.leaf label))
  /\ forall i, (i < length d)%nat ->
       Dom.tagName d' i = Dom.tagName d i
       /\ forall a : string, Dom.getAttribute d' i a = Dom.getAttribute d i a.
Proof.
  intros Hu Hd Ht Hp Htag d' link.
  assert (Hemail : Spec.emailOf d el = str "johnscript@example.com").
  { unfold Spec.emailOf, Spec.userOf, Spec.domainOf, Spec.tldOf.
    rewrite Hu, Hd, Ht. vm_compute. reflexivity. }
  assert (Hrun := emailSpanStep_link innerText d tr el p).
  unfold Spec.userOf, Spec.domainOf, Spec.tldOf in Hrun.
  rewrite Hemail, Hu, Hd, Ht in Hrun.
  specialize (Hrun ltac:(vm_compute; discriminate)
                   ltac:(vm_compute; discriminate)
                   ltac:(vm_compute; discriminate)
                   ltac:(vm_compute; reflexivity) Hp Htag).
  cbv zeta in Hrun. subst d' link. rewrite Hrun. cbn [snd document].
  destruct (parentElement_parentNode _ _ _ Hp) as [_ Hnd].
  rewrite !anchor_getAttribute.
  unfold Spec.emailAnchor, Spec.emailDraft. cbn [attributes].
  split.
  { rewrite !lookup_insert_ne by discriminate.
    rewrite lookup_insert_eq. reflexivity. }
  split.
  { rewrite lookup_insert_ne by discriminate.
    rewrite lookup_insert_eq. reflexivity. }
  split.
  { unfold Dom.tagName. rewrite anchor_lookup. reflexivity. }
  split; [apply anchored_length |].
  split.
  { eexists. rewrite anchor_lookup. reflexivity. }
  intros i Hi. apply anchored_old; assumption.
Qed.

(** C8, as the code has it: for a telegram placeholder with
    data-username="abc_123" and a parent node, the anchor produced has the
    href "https://t.me/abc_123", the target "_blank" and a rel that holds
    both "noopener" and "noreferrer"; its class is the element's and its
    label is the text that [getElementText] reads from the element: the
    element's text content when that is not empty, and the element's
    [innerText] when it is.  The anchor takes the element's place under the
    parent. *)
Theorem telegram_anchor d tr el p :
  Dom.getAttribute d el "data-username" = VStr (str "abc_123") ->
  Dom.getParentNode d el = Some p ->
  is_Some (d !! p) ->
  Dom.treeAt d el ->
  (forall n, innerText (d ++ [n]) el = innerText d el) ->
  let d' := document (snd (telegramStep innerText el (World d tr))) in
  let link := length d in
  Dom.tagName d' link = Some "A"%string
  /\ Dom.getAttribute d' link "href" = VStr (str "https://t.me/abc_123")
  /\ Dom.getAttribute d' link "target" = VStr (str "_blank")
  /\ (str "noopener" ∈ Dom.tokens_from [] (Dom.reflected d' link "rel")
      /\ str "noreferrer" ∈ Dom.tokens_from [] (Dom.reflected d' link "rel"))
  /\ Dom.getAttribute d' link "class" = VStr (Dom.reflected d el "class")
  /\ Dom.textContent d' link = elementText innerText d el
  /\ (Dom.textContent d el <> [] ->
      Dom.textContent d' link = Dom.textContent d el)
  /\ (Dom.textContent d el = [] ->
      Dom.textContent d' link = innerText d el)
  /\ Dom.getParentNode d' link = Some p
  /\ (childNodes <$> d' !! p)
     = Spec.swapped el link <$> (childNodes <$> d !! p).
Proof.
  intros Hu Hp Hnd Htree Hlay d' link.
  assert (Hname : Spec.usernameOf d el = str "abc_123").
  { unfold Spec.usernameOf. rewrite Hu. vm_compute. reflexivity. }
  assert (Hrun := telegramStep_link innerText d tr el p (str "abc_123")).
  rewrite Hname in Hrun.
  specialize (Hrun ltac:(vm_compute; discriminate)
                   ltac:(vm_compute; reflexivity) Hp Hnd).
  cbv zeta in Hrun. subst d' link. rewrite Hrun. cbn [snd document].
  assert (Hlabel :
    elementText innerText
      (d ++ [Spec.telegramDraft (Dom.reflected d el "class") (str "abc_123")])
      el
    = elementText innerText d el).
  { unfold elementText. rewrite textContent_old by exact Htree.
    rewrite Hlay. reflexivity. }
  rewrite Hlabel.
  unfold Dom.reflected. rewrite !anchor_getAttribute.
  unfold Spec.telegramAnchor, Spec.telegramDraft. cbn [attributes].
  split.
  { unfold Dom.tagName. rewrite anchor_lookup. reflexivity. }
  split.
  { rewrite !lookup_insert_ne by discriminate.
    rewrite lookup_insert_eq. reflexivity. }
  split.
  { rewrite !lookup_insert_ne by discriminate.
    rewrite lookup_insert_eq. reflexivity. }
  split.
  { rewrite !lookup_insert_ne by discriminate.
    rewrite lookup_insert_eq. vm_compute. split; set_solver. }
  split.
  { rewrite !lookup_insert_ne by discriminate.
    rewrite lookup_insert_eq. reflexivity. }
  assert (Htext :
    Dom.textContent
      (Spec.replacedIn d p el
       ++ [Node (Element "A")
             (<["aria-label" := str "Telegram " ++ str "abc_123"]>
                (<["rel" := str "noopener noreferrer"]>
                   (<["target" := str "_blank"]>
                      (<["class" := match Dom.getAttribute d el "class" with
                                    | VStr s => s
                                    | _ => []
                                    end]>
                         (<["href" := str "https://t.me/" ++ str "abc_123"]>
                            ∅)))))
             (Some p) (Spec.leaf (elementText innerText d el))])
      (length d)
    = elementText innerText d el).
  { apply anchor_text. reflexivity. }
  split; [exact Htext |].
  split.
  { intros Hne. rewrite Htext. unfold elementText.
    destruct (Dom.textContent d el) as [| c t] eqn:Ht; [congruence |].
    reflexivity. }
  split.
  { intros He. rewrite Htext. unfold elementText. rewrite He.
    destruct (innerText d el); reflexivity. }
  split.
  { unfold Dom.getParentNode. rewrite anchor_lookup. reflexivity. }
  destruct Hnd as [nd Hnd].
  rewrite (anchored_children d p el _ nd Hnd), Hnd. reflexivity.
Qed.

End Obfuscator.

(** ** The claims on the sample page *)

Section Samples.

Import EmailProtection GitHubMetrics Examples.

Lemma updateStats_failure_silent_witness :
  Spec.failure (serverError Spec.apiUrl) (Error "Failed to fetch GitHub data")
  /\ updateStats serverError (World page [])
     = (Ok tt,
        World page
          [Fetched Spec.apiUrl;
           ConsoleError "Error fetching GitHub data:"
             (Error "Failed to fetch GitHub data")]).
Proof.
  assert (H : Spec.failure (serverError Spec.apiUrl)
                (Error "Failed to fetch GitHub data")).
  { apply Spec.FailStatus. lia. }
  split; [exact H |].
  exact (updateStats_failure_silent serverError page [] _ H).
Defined.

Lemma updateStats_writes_counters_witness :
  online Spec.apiUrl = Responded 200 (Some counters)
  /\ (200 <= 200 <= 299)%Z
  /\ getField counters "followers" = Some (VNum 42)
  /\ getField counters "following" = Some (VNum 7)
  /\ Dom.textContent
       (document (snd (updateStats online (World page [])))) 6%nat
     = str "42"
  /\ Dom.textContent
       (document (snd (updateStats online (World page [])))) 7%nat
     = str "7".
Proof.
  split; [reflexivity |]. split; [lia |].
  split; [reflexivity |]. split; [reflexivity |].
  refine (proj1 (proj2 (proj2
            (updateStats_writes_counters online page [] 200 counters
               eq_refl _ eq_refl eq_refl)))
            6%nat 7%nat _ _ _).
  - lia.
  - vm_compute. reflexivity.
  - vm_compute. reflexivity.
  - discriminate.
Defined.

(** C6, as it is stated, fails on the box with wrapped counters: the
    container and both [strong] elements are there, both selectors select
    the first of them, which ends with "7" and not "42", and the second
    keeps its text. *)
Lemma wrapped_counters_overwritten :
  Dom.querySelector wrappedStats documentNode (Dom.ByClass "sidebar-stats")
  = Some 2%nat
  /\ Dom.querySelector wrappedStats 2%nat (Dom.FirstOfType "strong")
     = Some 4%nat
  /\ Dom.querySelector wrappedStats 2%nat (Dom.LastOfType "strong")
     = Some 4%nat
  /\ Dom.textContent
       (document (snd (updateStats online (World wrappedStats [])))) 4%nat
     = str "7"
  /\ Dom.textContent
       (document (snd (updateStats online (World wrappedStats [])))) 4%nat
     <> str "42"
  /\ Dom.textContent
       (document (snd (updateStats online (World wrappedStats [])))) 6%nat
     = str "2".
Proof.
  repeat split; try (vm_compute; reflexivity).
  vm_compute. discriminate.
Qed.

Lemma placeholder_linked_only_if_ready_witness :
  Spec.emailReady page 8%nat = false
  /\ (exists msg args,
        emailSpanStep blankLayout 8%nat (World page [])
        = (Ok tt, World page ([] ++ [ConsoleWarn msg args])))
  /\ document (snd (emailSpanStep blankLayout 2%nat (World page []))) <> page
  /\ Spec.emailReady page 2%nat = true
  /\ Spec.telegramReady page 3%nat = true.
Proof.
  assert (Hskip : Spec.emailReady page 8%nat = false)
    by (vm_compute; reflexivity).
  assert (Hlinked :
    document (snd (emailSpanStep blankLayout 2%nat (World page []))) <> page).
  { intros H. apply (f_equal length) in H. vm_compute in H. discriminate. }
  assert (Htg :
    document (snd (telegramStep blankLayout 3%nat (World page []))) <> page).
  { intros H. apply (f_equal length) in H. vm_compute in H. discriminate. }
  split; [exact Hskip |].
  split.
  { exact (proj2 (proj1 (placeholder_linked_only_if_ready blankLayout
                           page [] 8%nat)) Hskip). }
  split; [exact Hlinked |].
  split.
  { exact (proj1 (proj1 (placeholder_linked_only_if_ready blankLayout
                           page [] 2%nat)) Hlinked). }
  exact (proj1 (proj2 (proj2 (placeholder_linked_only_if_ready blankLayout
                                page [] 3%nat))) Htg).
Defined.

Lemma emailSpan_missing_part_warned_witness :
  ("data-tld" : string) ∈ ["data-user"; "data-domain"; "data-tld"]%string
  /\ sanitizeEmailPart (Dom.getAttribute page 8%nat "data-tld") = []
  /\ emailSpanStep blankLayout 8%nat (World page [])
     = (Ok tt,
        World page
          [ConsoleWarn "Email protection: Missing data attributes" []]).
Proof.
  assert (Hin : ("data-tld" : string)
                ∈ ["data-user"; "data-domain"; "data-tld"]%string).
  { do 2 apply list_elem_of_further. apply list_elem_of_here. }
  split; [exact Hin |]. split; [reflexivity |].
  exact (emailSpan_missing_part_warned blankLayout page [] 8%nat "data-tld"
           Hin eq_refl).
Defined.

Lemma emailSpan_without_parent_kept_witness :
  Dom.parentElement page 9%nat = None
  /\ Spec.emailReady page 9%nat = true
  /\ emailSpanStep blankLayout 9%nat (World page []) = (Ok tt, World page []).
Proof.
  split; [reflexivity |].
  assert (Hr : Spec.emailReady page 9%nat = true)
    by (vm_compute; reflexivity).
  split; [exact Hr |].
  exact (proj2 (emailSpan_without_parent_kept blankLayout page [] 9%nat
                  eq_refl) Hr).
Defined.

Lemma mailto_href_not_escaped_witness :
  sanitizeEmailPart (VStr (str "a")) <> []
  /\ sanitizeEmailPart (VStr (str "b")) <> []
  /\ sanitizeEmailPart (VStr (str "co")) <> []
  /\ encodeURI_pure (str "a@b.co") = Some (str "a@b.co")
  /\ Dom.getAttribute
       (document (snd (emailLinkStep 4%nat (World page [])))) 4%nat "href"
     = VStr (str "mailto:a@b.co").
Proof.
  assert (Hu : sanitizeEmailPart (VStr (str "a")) <> [])
    by (vm_compute; discriminate).
  assert (Hd : sanitizeEmailPart (VStr (str "b")) <> [])
    by (vm_compute; discriminate).
  assert (Ht : sanitizeEmailPart (VStr (str "co")) <> [])
    by (vm_compute; discriminate).
  pose proof (mailto_href_not_escaped blankLayout
                (VStr (str "a")) (VStr (str "b")) (VStr (str "co"))
                page [] 4%nat Hu Hd Ht) as [Hfix Hhref].
  split; [exact Hu |]. split; [exact Hd |]. split; [exact Ht |].
  split; [exact Hfix |].
  refine (proj1 (Hhref _ _ _ _)); vm_compute; reflexivity.
Defined.

Lemma script_brackets_stripped_witness :
  Dom.getAttribute page 2%nat "data-user" = VStr (str "john<script>")
  /\ Dom.getAttribute page 2%nat "data-domain" = VStr (str "example")
  /\ Dom.getAttribute page 2%nat "data-tld" = VStr (str "com")
  /\ Dom.parentElement page 2%nat = Some 1%nat
  /\ Dom.tagName page 1%nat <> Some "A"%string
  /\ Dom.getAttribute
       (document (snd (emailSpanStep blankLayout 2%nat (World page []))))
       (length page) "href"
     = VStr (str "mailto:johnscript@example.com").
Proof.
  assert (Htag : Dom.tagName page 1%nat <> Some "A"%string)
    by (vm_compute; discriminate).
  split; [reflexivity |]. split; [reflexivity |]. split; [reflexivity |].
  split; [reflexivity |]. split; [exact Htag |].
  exact (proj1 (script_brackets_stripped blankLayout page [] 2%nat 1%nat
                  eq_refl eq_refl eq_refl eq_refl Htag)).
Defined.

(** C4, as it is stated, fails on the sample page: the placeholder has the
    three attributes of the claim, and the [href] of the anchor that pass 1
    puts in its place is not "mailto:john@example.com", the letters of
    "script" being part of it. *)
Lemma script_letters_survive :
  Dom.getAttribute page 2%nat "data-user" = VStr (str "john<script>")
  /\ Dom.getAttribute page 2%nat "data-domain" = VStr (str "example")
  /\ Dom.getAttribute page 2%nat "data-tld" = VStr (str "com")
  /\ sanitizeEmailPart (VStr (str "john<script>")) = str "johnscript"
  /\ Dom.getAttribute
       (document (snd (emailSpanStep blankLayout 2%nat (World page []))))
       (length page) "href"
     <> VStr (str "mailto:john@example.com").
Proof.
  split; [reflexivity |]. split; [reflexivity |]. split; [reflexivity |].
  split; [vm_compute; reflexivity |].
  vm_compute. discriminate.
Qed.

Lemma telegram_anchor_witness :
  Dom.getAttribute page 3%nat "data-username" = VStr (str "abc_123")
  /\ Dom.getParentNode page 3%nat = Some 1%nat
  /\ is_Some (page !! 1%nat)
  /\ Dom.treeAt page 3%nat
  /\ (forall n, blankLayout (page ++ [n]) 3%nat = blankLayout page 3%nat)
  /\ Dom.getAttribute
       (document (snd (telegramStep blankLayout 3%nat (World page []))))
       (length page) "href"
     = VStr (str "https://t.me/abc_123")
  /\ Dom.textContent
       (document (snd (telegramStep blankLayout 3%nat (World page []))))
       (length page)
     = str "chat".
Proof.
  assert (Hp : is_Some (page !! 1%nat)) by (eexists; reflexivity).
  assert (Htree : Dom.treeAt page 3%nat)
    by (eexists; vm_compute; reflexivity).
  assert (Hlay : forall n,
            blankLayout (page ++ [n]) 3%nat = blankLayout page 3%nat)
    by (intros n; reflexivity).
  pose proof (telegram_anchor blankLayout page [] 3%nat 1%nat
                eq_refl eq_refl Hp Htree Hlay)
    as (_ & Hhref & _ & _ & _ & Htext & _).
  split; [reflexivity |]. split; [reflexivity |]. split; [exact Hp |].
  split; [exact Htree |]. split; [exact Hlay |].
  split; [exact Hhref |]. exact Htext.
Defined.

(** C8, as it is stated, fails on a placeholder that holds a line break
    and no text, [<span ...><br></span>], under a layout that renders the
    break: the element has the attribute of the claim and a parent, its
    text content is empty, and the label of the anchor is the line break
    that [innerText] gives, not the text content. *)
Lemma telegram_label_from_innerText :
  Dom.getAttribute lineBreak 2%nat "data-username" = VStr (str "abc_123")
  /\ Dom.getParentNode lineBreak 2%nat = Some 1%nat
  /\ is_Some (lineBreak !! 1%nat)
  /\ Dom.textContent lineBreak 2%nat = []
  /\ breakLayout lineBreak 2%nat = [10]
  /\ Dom.textContent
       (document (snd (telegramStep breakLayout 2%nat (World lineBreak []))))
       (length lineBreak)
     = [10]
  /\ Dom.textContent
       (document (snd (telegramStep breakLayout 2%nat (World lineBreak []))))
       (length lineBreak)
     <> Dom.textContent lineBreak 2%nat.
Proof.
  split; [reflexivity |]. split; [reflexivity |].
  split; [eexists; reflexivity |].
  split; [vm_compute; reflexivity |]. split; [vm_compute; reflexivity |].
  split; [vm_compute; reflexivity |].
  vm_compute. discriminate.
Qed.

End Samples.

(** * Further properties of the two scripts *)

(** ** Laws of the sanitizer and the validator *)

Section Laws.

Import EmailProtection.

(** X1: sanitizing is idempotent: a sanitized string passes through the
    sanitizer unchanged. *)
Theorem sanitizeEmailPart_idempotent (v : jsval) :
  sanitizeEmailPart (VStr (sanitizeEmailPart v)) = sanitizeEmailPart v.
Proof.
  assert (Hother : is_string v = false -> sanitizeEmailPart v = []).
  { intros H. unfold sanitizeEmailPart. rewrite H, orb_true_r. reflexivity. }
  destruct v as [| | b | z | s | l | props];
    try (rewrite Hother by reflexivity; reflexivity).
  rewrite !sanitize_string, list_filter_filter.
  apply list_filter_iff. intros c. tauto.
Qed.

(** X2: the sanitizer works character by character: the sanitized
    concatenation of two strings is the concatenation of the two
    sanitized strings. *)
Theorem sanitizeEmailPart_app (s1 s2 : jsstring) :
  sanitizeEmailPart (VStr (s1 ++ s2))
  = sanitizeEmailPart (VStr s1) ++ sanitizeEmailPart (VStr s2).
Proof. rewrite !sanitize_string. apply filter_app. Qed.

(** A predicate that is false from 256 on implies another as soon as it
    does so on the low units. *)
Lemma implies_by_table (p q : codeunit -> bool) :
  (forall c, 256 <= c -> p c = false) ->
  forallb (fun c => implb (p c) (q c)) low_units = true ->
  forall c, p c = true -> q c = true.
Proof.
  intros Hhigh Htab c Hp.
  destruct (N.lt_ge_cases c 256) as [Hlt | Hge].
  - rewrite forallb_forall in Htab.
    apply low_units_complete, list_elem_of_In, Htab in Hlt.
    rewrite Hp in Hlt. exact Hlt.
  - rewrite Hhigh in Hp by exact Hge. discriminate.
Qed.

Lemma isLetter_domainChar c :
  Spec.isLetter c = true -> Spec.domainChar c = true.
Proof.
  intros H. unfold Spec.domainChar. rewrite H. reflexivity.
Qed.

Lemma domainChar_localChar c :
  Spec.domainChar c = true -> Spec.localChar c = true.
Proof.
  apply implies_by_table; [high_false | vm_compute; reflexivity].
Qed.

Lemma localChar_allowed c : Spec.localChar c = Spec.allowed c.
Proof.
  rewrite <- localClass_spec.
  apply class_test_by_table;
    [reflexivity | high_false | vm_compute; reflexivity].
Qed.

Lemma localChar_not_at c : Spec.localChar c = true -> c <> chr "@".
Proof.
  intros H ->. vm_compute in H. discriminate.
Qed.

Lemma isLetter_not_dot c : Spec.isLetter c = true -> c <> chr ".".
Proof.
  intros H ->. vm_compute in H. discriminate.
Qed.

Lemma localChar_encodeURI c :
  Spec.localChar c = true ->
  class_test (CharClass false (items uriUnescaped ++ uriReservedHash)) c
  = true.
Proof. rewrite localChar_allowed. apply allowed_encodeURI. Qed.

Lemma valid_shape (s : jsstring) :
  isValidEmail (VStr s) = true <-> Spec.emailShape s.
Proof.
  rewrite isValidEmail_string, regex_match_spec. apply emailRegex_shape.
Qed.

(** X3: an address that [isValidEmail] accepts has six characters or more,
    exactly one [@], and nothing that [encodeURI] would escape. *)
Theorem valid_email_plain (s : jsstring) :
  isValidEmail (VStr s) = true ->
  (6 <= length s)%nat
  /\ length (filter (fun c => c = chr "@") s) = 1%nat
  /\ encodeURI_pure s = Some s.
Proof.
  intros H. apply valid_shape in H
    as (l & dm & t & -> & Hl1 & Hl2 & Hd1 & Hd2 & Ht1 & Ht2).
  assert (Hnone : forall x : jsstring,
            Forall (fun c => Spec.localChar c = true) x ->
            filter (fun c => c = chr "@") x = []).
  { intros x Hx. induction Hx as [| c x Hc _ IH]; [reflexivity |].
    rewrite filter_cons, IH.
    destruct (decide (c = chr "@")) as [-> | _]; [| reflexivity].
    vm_compute in Hc. discriminate. }
  assert (Hdl : Forall (fun c => Spec.localChar c = true) dm).
  { eapply Forall_impl; [exact Hd2 |]. apply domainChar_localChar. }
  assert (Htl : Forall (fun c => Spec.localChar c = true) t).
  { eapply Forall_impl; [exact Ht1 |].
    intros c Hc. apply domainChar_localChar, isLetter_domainChar, Hc. }
  split.
  { rewrite !length_app. simpl.
    destruct l; [congruence |]. destruct dm; [congruence |]. simpl. lia. }
  split.
  { rewrite !filter_app, (Hnone l Hl2), (Hnone dm Hdl), (Hnone t Htl).
    reflexivity. }
  apply Encode_unescaped.
  repeat apply Forall_app_2;
    try (eapply Forall_impl; [eassumption |]; apply localChar_encodeURI).
  - repeat constructor.
  - repeat constructor.
Qed.

Lemma split_at_unique (c : codeunit) (l1 l2 r1 r2 : jsstring) :
  c ∉ l1 -> c ∉ l2 -> l1 ++ c :: r1 = l2 ++ c :: r2 -> l1 = l2 /\ r1 = r2.
Proof.
  revert l2. induction l1 as [| x l1 IH]; intros [| y l2] H1 H2 E;
    simpl in E.
  - injection E as <-. auto.
  - injection E as <- _. exfalso. apply H2. apply list_elem_of_here.
  - injection E as -> _. exfalso. apply H1. apply list_elem_of_here.
  - injection E as <- E.
    apply not_elem_of_cons in H1 as [_ H1].
    apply not_elem_of_cons in H2 as [_ H2].
    destruct (IH l2 H1 H2 E) as [-> ->]. auto.
Qed.

Lemma prefix_until (c : codeunit) (p q r r' : jsstring) :
  c ∉ p -> p ++ c :: r = q ++ c :: r' ->
  q = p \/ exists q', q = p ++ c :: q'.
Proof.
  revert q. induction p as [| x p IH]; intros [| y q] Hp E; simpl in E.
  - auto.
  - injection E as <- _. right. exists q. reflexivity.
  - injection E as -> _. exfalso. apply Hp. apply list_elem_of_here.
  - injection E as <- E. apply not_elem_of_cons in Hp as [_ Hp].
    destruct (IH q Hp E) as [-> | [q' ->]]; [auto |].
    right. exists q'. reflexivity.
Qed.

Lemma Forall_not_elem (p : codeunit -> bool) (c : codeunit) (s : jsstring) :
  p c = false -> Forall (fun x => p x = true) s -> c ∉ s.
Proof.
  intros Hc Hs Hin. rewrite Forall_forall in Hs.
  apply Hs in Hin. congruence.
Qed.

(** X4: what the validator adds to the sanitizer.  For sanitized parts with
    a non-empty user and domain, the assembled address is valid exactly
    when the domain and the tld hold neither [_] nor [+] and the tld ends,
    after its last dot if it has one, in two letters or more. *)
Theorem assembled_valid_iff (vu vd vt : jsval) :
  let user := sanitizeEmailPart vu in
  let domain := sanitizeEmailPart vd in
  let tld := sanitizeEmailPart vt in
  user <> [] ->
  domain <> [] ->
  isValidEmail (VStr (user ++ str "@" ++ domain ++ str "." ++ tld)) = true
  <-> Forall (fun c => Spec.domainChar c = true) domain
      /\ Forall (fun c => Spec.domainChar c = true) tld
      /\ exists a t : jsstring,
           tld = a ++ t
           /\ (a = [] \/ exists a', a = a' ++ [chr "."])
           /\ Forall (fun c => Spec.isLetter c = true) t
           /\ (2 <= length t)%nat.
Proof.
  intros user domain tld Hu Hd.
  assert (Huser : Forall (fun c => Spec.localChar c = true) user).
  { eapply Forall_impl; [apply sanitize_allowed |].
    intros c. rewrite localChar_allowed. auto. }
  change (str "@") with [chr "@"]. change (str ".") with [chr "."].
  rewrite valid_shape. split.
  - intros (l & dm & t & E & _ & Hl & _ & Hdm & Ht & Hlen).
    cbn [app] in E.
    apply split_at_unique in E as [_ E];
      [| eapply (Forall_not_elem Spec.localChar); [reflexivity | exact Huser]
       | eapply (Forall_not_elem Spec.localChar); [reflexivity | exact Hl]].
    assert (Hall : Forall (fun c => Spec.domainChar c = true)
                     (domain ++ chr "." :: tld)).
    { rewrite E. apply Forall_app_2; [exact Hdm |].
      constructor; [reflexivity |].
      eapply Forall_impl; [exact Ht |]. apply isLetter_domainChar. }
    apply Forall_app in Hall as [Hdom Hall].
    apply Forall_cons in Hall as [_ Htld].
    split; [exact Hdom |]. split; [exact Htld |].
    apply (f_equal (@rev N)) in E.
    rewrite !rev_app_distr in E. cbn [rev] in E.
    rewrite <- !app_assoc in E. cbn [app] in E. symmetry in E.
    apply prefix_until in E as [E | [q' E]].
    + apply rev_inj in E. exists [], t. simpl. auto.
    + exists (rev q' ++ [chr "."]), t.
      split.
      { apply rev_inj. rewrite E, !rev_app_distr, rev_involutive.
        cbn [rev app]. reflexivity. }
      split; [right; eauto |]. auto.
    + intros Hin. apply list_elem_of_In, in_rev, list_elem_of_In in Hin.
      revert Hin. eapply (Forall_not_elem Spec.isLetter);
        [reflexivity | exact Ht].
  - intros (Hdom & Htld & a & t & Ea & Ha & Ht & Hlen).
    destruct Ha as [-> | [a' ->]].
    + cbn [app] in Ea. exists user, domain, t. rewrite Ea. repeat split; auto.
    + exists user, (domain ++ [chr "."] ++ a'), t.
      split.
      { rewrite Ea, <- !app_assoc. reflexivity. }
      split; [exact Hu |]. split; [exact Huser |].
      split; [destruct domain; [congruence | discriminate] |].
      split; [| auto].
      rewrite Ea in Htld. apply Forall_app in Htld as [Htld _].
      apply Forall_app in Htld as [Htld _].
      repeat apply Forall_app_2; auto.
Qed.

Lemma assembled_valid_iff_witness :
  sanitizeEmailPart (VStr (str "a")) <> []
  /\ sanitizeEmailPart (VStr (str "b")) <> []
  /\ (isValidEmail (VStr (str "a@b.co.uk")) = true
      <-> Forall (fun c => Spec.domainChar c = true) (str "b")
          /\ Forall (fun c => Spec.domainChar c = true) (str "co.uk")
          /\ exists a t : jsstring,
               str "co.uk" = a ++ t
               /\ (a = [] \/ exists a', a = a' ++ [chr "."])
               /\ Forall (fun c => Spec.isLetter c = true) t
               /\ (2 <= length t)%nat).
Proof.
  assert (Hu : sanitizeEmailPart (VStr (str "a")) <> [])
    by (vm_compute; discriminate).
  assert (Hd : sanitizeEmailPart (VStr (str "b")) <> [])
    by (vm_compute; discriminate).
  split; [exact Hu |]. split; [exact Hd |].
  exact (assembled_valid_iff (VStr (str "a")) (VStr (str "b"))
           (VStr (str "co.uk")) Hu Hd).
Defined.

Lemma valid_email_plain_witness :
  isValidEmail (VStr (str "a@b.co")) = true
  /\ encodeURI_pure (str "a@b.co") = Some (str "a@b.co").
Proof.
  assert (H : isValidEmail (VStr (str "a@b.co")) = true)
    by (vm_compute; reflexivity).
  split; [exact H |].
  exact (proj2 (proj2 (valid_email_plain (str "a@b.co") H))).
Defined.

End Laws.

(** ** Further properties of the heap *)

Section HeapLaws.

Implicit Types (d : DOM) (e p : nid).

Lemma tagName_old d (l : list node) e :
  (e < length d)%nat -> Dom.tagName (d ++ l) e = Dom.tagName d e.
Proof.
  intros H. unfold Dom.tagName. rewrite lookup_old by exact H. reflexivity.
Qed.

Lemma setAttribute_lookup d e (a : string) (v : jsstring) i :
  Dom.setAttribute d e a v !! i
  = (fun nd => Node (kind nd)
                 (if bool_decide (i = e) then <[a := v]> (attributes nd)
                  else attributes nd)
                 (parentNode nd) (childNodes nd)) <$> d !! i.
Proof.
  unfold Dom.setAttribute. destruct (d !! e) as [nd |] eqn:He.
  - destruct (decide (i = e)) as [-> | Hne].
    + rewrite list_lookup_insert_eq by (apply lookup_lt_Some in He; exact He).
      rewrite He. simpl. rewrite bool_decide_eq_true_2 by reflexivity.
      reflexivity.
    + rewrite list_lookup_insert_ne by congruence.
      rewrite bool_decide_eq_false_2 by exact Hne.
      destruct (d !! i) as [[]|]; reflexivity.
  - destruct (decide (i = e)) as [-> | Hne].
    + rewrite He. reflexivity.
    + rewrite bool_decide_eq_false_2 by exact Hne.
      destruct (d !! i) as [[]|]; reflexivity.
Qed.

Lemma tagName_setAttribute d e (a : string) (v : jsstring) i :
  Dom.tagName (Dom.setAttribute d e a v) i = Dom.tagName d i.
Proof.
  unfold Dom.tagName. rewrite setAttribute_lookup.
  destruct (d !! i); reflexivity.
Qed.

(** [replaceChild] changes no tag and no attribute. *)
Lemma replaceChild_preserves d p new old d' :
  Dom.replaceChild d p new old = Some d' ->
  length d' = length d
  /\ forall i, Dom.tagName d' i = Dom.tagName d i
       /\ forall a : string, Dom.getAttribute d' i a = Dom.getAttribute d i a.
Proof.
  unfold Dom.replaceChild. case_bool_decide as Hold; [| discriminate].
  destruct (d !! p) as [nd |] eqn:Hp; [| discriminate].
  intros [= <-]. split.
  - rewrite !setParent_length. apply length_insert.
  - intros i. unfold Dom.tagName, Dom.getAttribute.
    rewrite !setParent_lookup.
    destruct (decide (i = p)) as [-> | Hne].
    + rewrite list_lookup_insert_eq by (apply lookup_lt_Some in Hp; exact Hp).
      rewrite Hp. simpl. auto.
    + rewrite list_lookup_insert_ne by congruence.
      destruct (d !! i); simpl; auto.
Qed.

Lemma setTextContent_preserves d e (s : jsstring) i :
  Dom.tagName (Dom.setTextContent d e s) i = Dom.tagName d i
  /\ forall a : string,
       Dom.getAttribute (Dom.setTextContent d e s) i a
       = Dom.getAttribute d i a.
Proof.
  unfold Dom.tagName, Dom.getAttribute, Dom.setTextContent.
  destruct (d !! e) as [nd |] eqn:He; [| auto].
  rewrite foldl_setParent_lookup, He. simpl.
  destruct (decide (i = e)) as [-> | Hne].
  - rewrite list_lookup_insert_eq
      by (rewrite foldl_setParent_length; apply lookup_lt_Some in He;
          exact He).
    rewrite He. simpl. auto.
  - rewrite list_lookup_insert_ne by congruence.
    rewrite foldl_setParent_lookup. destruct (d !! i); simpl; auto.
Qed.

(** *** Parents *)

Lemma getParentNode_setAttribute d e (a : string) (v : jsstring) i :
  Dom.getParentNode (Dom.setAttribute d e a v) i = Dom.getParentNode d i.
Proof.
  unfold Dom.getParentNode. rewrite setAttribute_lookup.
  destruct (d !! i); reflexivity.
Qed.

(** [replaceChild] gives a parent to the new node only: the node replaced
    loses its own, every other node keeps it. *)
Lemma replaceChild_parents d p new old d' i :
  Dom.replaceChild d p new old = Some d' ->
  i <> new ->
  Dom.getParentNode d' i = Dom.getParentNode d i
  \/ Dom.getParentNode d' i = None.
Proof.
  unfold Dom.replaceChild. case_bool_decide as Hold; [| discriminate].
  destruct (d !! p) as [nd |] eqn:Hp; [| discriminate].
  intros [= <-] Hne. unfold Dom.getParentNode.
  rewrite !setParent_lookup.
  rewrite (bool_decide_eq_false_2 (i = new)) by exact Hne.
  destruct (decide (i = p)) as [-> | Hnp].
  - rewrite list_lookup_insert_eq by (apply lookup_lt_Some in Hp; exact Hp).
    rewrite Hp. simpl. case_bool_decide; auto.
  - rewrite list_lookup_insert_ne by congruence.
    destruct (d !! i); simpl; [case_bool_decide |]; auto.
Qed.

(** The [textContent] setter takes the children out of the tree and moves
    nothing else. *)
Lemma setTextContent_parents d e (s : jsstring) i :
  Dom.getParentNode (Dom.setTextContent d e s) i = Dom.getParentNode d i
  \/ Dom.getParentNode (Dom.setTextContent d e s) i = None.
Proof.
  unfold Dom.getParentNode, Dom.setTextContent.
  destruct (d !! e) as [nd |] eqn:He; [| auto].
  rewrite foldl_setParent_lookup, He. simpl.
  destruct (decide (i = e)) as [-> | Hne].
  - rewrite list_lookup_insert_eq
      by (rewrite foldl_setParent_length; apply lookup_lt_Some in He;
          exact He).
    rewrite He. simpl. case_bool_decide; auto.
  - rewrite list_lookup_insert_ne by congruence.
    rewrite foldl_setParent_lookup.
    destruct (d !! i); simpl; [case_bool_decide |]; auto.
Qed.

Lemma anchored_parents d p el n i :
  is_Some (d !! p) ->
  (i < length d)%nat ->
  Dom.getParentNode (Spec.replacedIn d p el ++ [n]) i = Dom.getParentNode d i
  \/ Dom.getParentNode (Spec.replacedIn d p el ++ [n]) i = None.
Proof.
  intros [nd Hnd] Hi. unfold Dom.getParentNode.
  rewrite lookup_old by (rewrite replacedIn_length; exact Hi).
  rewrite (replacedIn_lookup d el p nd i Hnd).
  destruct (d !! i) as [x |]; simpl; [case_bool_decide |]; auto.
Qed.

(** *** What a run keeps *)

Lemma keeps_refl d : Spec.keeps d d.
Proof. split; [lia | auto]. Qed.

Lemma keeps_trans d1 d2 d3 :
  Spec.keeps d1 d2 -> Spec.keeps d2 d3 -> Spec.keeps d1 d3.
Proof.
  intros [H1 K1] [H2 K2]. split; [lia |].
  intros i Hi. destruct (K1 i Hi) as (T1 & P1 & A1).
  destruct (K2 i ltac:(lia)) as (T2 & P2 & A2).
  split; [congruence |]. split.
  - destruct P2 as [P2 | P2]; [| auto].
    destruct P1 as [P1 | P1]; [left | right]; congruence.
  - intros a Ha. rewrite A2, A1 by exact Ha. reflexivity.
Qed.

(** Nodes added at the end, whatever they hold. *)
Lemma keeps_grow d (l : list node) : Spec.keeps d (d ++ l).
Proof.
  split; [rewrite length_app; lia |].
  intros i Hi. split; [apply tagName_old; exact Hi |].
  split; [left; apply getParentNode_old; exact Hi |].
  intros a _. apply getAttribute_old. exact Hi.
Qed.

(** The three attributes that pass 2 writes. *)
Lemma keeps_link_attribute d e (a : string) (v : jsstring) :
  a ∈ ["href"; "aria-label"; "rel"]%string ->
  Spec.keeps d (Dom.setAttribute d e a v).
Proof.
  intros Ha. split; [rewrite setAttribute_length; lia |].
  intros i _. split; [apply tagName_setAttribute |].
  split; [left; apply getParentNode_setAttribute |].
  intros b Hb. apply getAttribute_setAttribute_ne.
  intros ->. contradiction.
Qed.

Lemma keeps_replaced d p el n :
  is_Some (d !! p) -> Spec.keeps d (Spec.replacedIn d p el ++ [n]).
Proof.
  intros Hp. split; [rewrite anchored_length; lia |].
  intros i Hi. destruct (anchored_old d p el n i Hp Hi) as [T A].
  split; [exact T |]. split; [apply anchored_parents; assumption |].
  intros a _. apply A.
Qed.

End HeapLaws.

(** ** Further properties of the obfuscator *)

Section Passes.

Import EmailProtection.

Variable innerText : DOM -> nid -> jsstring.

Implicit Types (d : DOM) (tr : list event) (el p : nid) (w : world).

Lemma allowed_unescaped (c : codeunit) :
  Spec.allowed c = true -> c <> chr "+" ->
  class_test uriUnescaped c = true.
Proof.
  intros H Hne. pose proof (allowed_low c H) as Hlt.
  assert (Htab :
    forallb (fun c => implb (Spec.allowed c && negb (c =? chr "+"))
                        (class_test uriUnescaped c))
      low_units = true) by (vm_compute; reflexivity).
  rewrite forallb_forall in Htab.
  apply low_units_complete, list_elem_of_In, Htab in Hlt.
  rewrite H in Hlt. apply N.eqb_neq in Hne. rewrite Hne in Hlt. exact Hlt.
Qed.

Lemma Encode_escapePlus (s : jsstring) :
  Forall (fun c => Spec.allowed c = true) s ->
  encodeURIComponent_pure s = Some (Spec.escapePlus s).
Proof.
  unfold encodeURIComponent_pure.
  induction 1 as [| c s Hc _ IH]; [reflexivity |].
  cbn [Encode Spec.escapePlus flat_map]. rewrite IH.
  destruct (N.eqb_spec c (chr "+")) as [-> | Hne].
  - reflexivity.
  - rewrite (allowed_unescaped c Hc Hne). reflexivity.
Qed.

Lemma usernameOf_escaped d el :
  encodeURIComponent_pure (Spec.usernameOf d el)
  = Some (Spec.escapePlus (Spec.usernameOf d el)).
Proof. apply Encode_escapePlus, sanitize_allowed. Qed.

(** The run of the telegram callback on a placeholder with a handle. *)
Lemma telegramStep_run d tr el :
  Spec.usernameOf d el <> [] ->
  let username := Spec.usernameOf d el in
  let enc := Spec.escapePlus username in
  let cls := Dom.reflected d el "class" in
  let label :=
    elementText innerText (d ++ [Spec.telegramDraft cls enc]) el in
  let anchor := Spec.telegramAnchor cls enc label username None in
  telegramStep innerText el (World d tr)
  = match Dom.getParentNode d el with
    | None => (Ok tt, World (d ++ [anchor]) tr)
    | Some p =>
        match Dom.replaceChild (d ++ [anchor]) p (length d) el with
        | Some d' => (Ok tt, World d' tr)
        | None =>
            (Ok tt,
             World (d ++ [anchor])
               (tr ++ [ConsoleError "Telegram protection error:"
                         NotFoundError]))
        end
    end.
Proof.
  intros Hu username enc cls label anchor.
  unfold telegramStep, try_catch, mbind, JS_bind, fmap, JS_fmap,
    getAttribute, reads.
  cbn [document].
  fold (Spec.usernameOf d el). rewrite blank_spec.
  rewrite bool_decide_eq_false_2 by exact Hu.
  unfold createElement, Dom.createElement, encodeURIComponent, orThrow.
  cbn [document trace]. rewrite usernameOf_escaped.
  fold username. fold enc.
  unfold mret, JS_ret, setAttribute, writes, className, reads.
  cbn [document trace].
  repeat rewrite (setAttribute_snoc d).
  cbn [kind attributes parentNode childNodes].
  unfold Dom.reflected at 1.
  destruct (Dom.getAttribute d el "data-username") as [| | | | s | |] eqn:Ha;
    try (exfalso; apply Hu; unfold Spec.usernameOf; rewrite Ha;
         unfold sanitizeEmailPart; simpl; rewrite ?orb_true_r; reflexivity).
  pose proof (getAttribute_string _ _ _ _ Ha) as Hlt.
  rewrite getAttribute_old by exact Hlt.
  fold (Dom.reflected d el "class"). fold cls.
  repeat rewrite (setAttribute_snoc d).
  cbn [kind attributes parentNode childNodes].
  rewrite getElementText_run. cbn [document].
  change (Dom.toUpperCase "a") with "A"%string.
  fold (Spec.telegramDraft cls enc). fold label.
  unfold setTextContent, writes. cbn [document trace].
  rewrite (setTextContent_snoc d) by reflexivity.
  rewrite (setAttribute_snoc d).
  cbn [kind attributes parentNode childNodes].
  unfold parentNode_of, reads. cbn [document].
  rewrite getParentNode_old by exact Hlt.
  fold (Spec.leaf label).
  subst anchor. unfold Spec.telegramAnchor.
  change (kind (Spec.telegramDraft cls enc)) with (Element "A").
  change (parentNode (Spec.telegramDraft cls enc)) with (@None nid).
  destruct (Dom.getParentNode d el) as [p |]; [| reflexivity].
  unfold replaceChild. cbn [document trace].
  destruct (Dom.replaceChild _ p (length d) el); reflexivity.
Qed.

(** *** What a callback does to the document and the console *)

(** Pass 1 logs its verdict on the element and changes no tag and no
    attribute of a node that is there. *)
Lemma emailSpanStep_effect d tr el :
  exists d1,
    emailSpanStep innerText el (World d tr)
    = (Ok tt, World d1 (tr ++ Spec.spanVerdict d el))
    /\ (length d <= length d1)%nat
    /\ (forall i, (i < length d)%nat ->
          Dom.tagName d1 i = Dom.tagName d i
          /\ forall a : string,
               Dom.getAttribute d1 i a = Dom.getAttribute d i a)
    /\ forall i, (i < length d)%nat ->
         Dom.getParentNode d1 i = Dom.getParentNode d i
         \/ Dom.getParentNode d1 i = None.
Proof.
  unfold Spec.spanVerdict.
  destruct (decide (Spec.userOf d el = [] \/ Spec.domainOf d el = []
                    \/ Spec.tldOf d el = [])) as [Hm | Hp].
  { rewrite bool_decide_eq_true_2 by exact Hm.
    exists d. split; [apply emailSpanStep_missing; exact Hm | auto]. }
  rewrite bool_decide_eq_false_2 by exact Hp.
  assert (Hu : Spec.userOf d el <> []) by tauto.
  assert (Hd : Spec.domainOf d el <> []) by tauto.
  assert (Ht : Spec.tldOf d el <> []) by tauto.
  destruct (isValidEmail (VStr (Spec.emailOf d el))) eqn:Hv.
  2: { exists d. split; [apply emailSpanStep_invalid; assumption | auto]. }
  rewrite app_nil_r.
  destruct (Dom.parentElement d el) as [p |] eqn:Hpe.
  - destruct (decide (Dom.tagName d p = Some "A"%string)) as [Ha | Ha].
    + exists d. split; [| auto].
      apply emailSpanStep_detached; try assumption. rewrite Hpe. exact Ha.
    + eexists. split.
      { apply (emailSpanStep_link innerText d tr el p); assumption. }
      destruct (parentElement_parentNode _ _ _ Hpe) as [_ Hnd].
      split; [rewrite anchored_length; lia |].
      split; intros i Hi; [apply anchored_old | apply anchored_parents];
        assumption.
  - exists d. split; [| auto].
    apply emailSpanStep_detached; try assumption. rewrite Hpe. exact I.
Qed.

Lemma emailSpanStep_safe w el :
  fst (emailSpanStep innerText el w) = Ok tt
  /\ Spec.keeps (document w) (document (snd (emailSpanStep innerText el w))).
Proof.
  destruct w as [d tr].
  destruct (emailSpanStep_effect d tr el) as (d1 & -> & Hlen & Hold & Hpar).
  split; [reflexivity |]. split; [exact Hlen |].
  intros i Hi. destruct (Hold i Hi) as [T A]. auto.
Qed.

Lemma emailLinkStep_data d el (a : string) (v1 v2 v3 : jsstring) :
  a ∉ ["href"; "aria-label"; "rel"]%string ->
  Dom.getAttribute
    (Dom.setAttribute
       (Dom.setAttribute (Dom.setAttribute d el "href" v1)
          el "aria-label" v2)
       el "rel" v3) el a
  = Dom.getAttribute d el a.
Proof.
  intros Ha.
  rewrite !getAttribute_setAttribute_ne; [reflexivity | | |];
    intros <-; apply Ha;
    repeat first [apply list_elem_of_here | apply list_elem_of_further].
Qed.

Lemma emailLinkStep_safe w el :
  fst (emailLinkStep el w) = Ok tt
  /\ Spec.keeps (document w) (document (snd (emailLinkStep el w))).
Proof.
  destruct w as [d tr].
  destruct (Spec.emailReady d el) eqn:Hr.
  - unfold Spec.emailReady in Hr.
    apply andb_true_iff in Hr as [Hr Hv].
    apply andb_true_iff in Hr as [Hr Ht].
    apply andb_true_iff in Hr as [Hu Hd].
    apply bool_decide_eq_true in Hu, Hd, Ht.
    rewrite emailLinkStep_href by assumption. cbv zeta.
    split; [reflexivity |]. cbn [snd document].
    assert (H1 : ("href" : string) ∈ ["href"; "aria-label"; "rel"]%string)
      by apply list_elem_of_here.
    assert (H2 : ("aria-label" : string)
                 ∈ ["href"; "aria-label"; "rel"]%string)
      by (apply list_elem_of_further, list_elem_of_here).
    assert (H3 : ("rel" : string) ∈ ["href"; "aria-label"; "rel"]%string)
      by (do 2 apply list_elem_of_further; apply list_elem_of_here).
    pose proof (keeps_link_attribute d el "href"
                  (str "mailto:" ++ Spec.emailOf d el) H1) as K1.
    pose proof (fun d0 => keeps_link_attribute d0 el "aria-label"
                  (str "Send email to " ++ Spec.emailOf d el) H2) as K2.
    pose proof (fun d0 => keeps_link_attribute d0 el "rel" (str "noopener")
                  H3) as K3.
    exact (keeps_trans _ _ _ (keeps_trans _ _ _ K1 (K2 _)) (K3 _)).
  - apply (emailReady_false innerText) in Hr as [Hm | (Hu & Hd & Ht & Hv)].
    + rewrite emailLinkStep_missing by exact Hm.
      split; [reflexivity | apply keeps_refl].
    + rewrite emailLinkStep_invalid by assumption.
      split; [reflexivity | apply keeps_refl].
Qed.

Lemma telegramStep_safe w el :
  fst (telegramStep innerText el w) = Ok tt
  /\ Spec.keeps (document w) (document (snd (telegramStep innerText el w))).
Proof.
  destruct w as [d tr].
  destruct (decide (Spec.usernameOf d el = [])) as [Hm | Hu].
  { rewrite telegramStep_missing by exact Hm.
    split; [reflexivity | apply keeps_refl]. }
  rewrite telegramStep_run by exact Hu. cbv zeta.
  destruct (Dom.getParentNode d el) as [p |];
    [| split; [reflexivity | apply keeps_grow]].
  destruct (Dom.replaceChild _ p (length d) el) as [d' |] eqn:Hrep;
    [| split; [reflexivity | apply keeps_grow]].
  split; [reflexivity |]. cbn [snd document].
  match type of Hrep with
  | Dom.replaceChild (d ++ ?l) _ _ _ = _ =>
      destruct (keeps_grow d l) as [L0 K0]
  end.
  pose proof (fun i => replaceChild_parents _ _ _ _ _ i Hrep) as Hpar.
  apply replaceChild_preserves in Hrep as (Hlen & Hold).
  split; [rewrite Hlen; exact L0 |].
  intros i Hi. destruct (K0 i Hi) as (T0 & P0 & A0).
  destruct (Hold i) as [T A].
  split; [congruence |]. split.
  - destruct (Hpar i ltac:(lia)) as [P | P]; [| auto].
    rewrite P. exact P0.
  - intros a Ha. rewrite A. apply A0. exact Ha.
Qed.

Lemma forEach_safe {A} (callback : A -> JS unit) :
  (forall x w, fst (callback x w) = Ok tt
               /\ Spec.keeps (document w) (document (snd (callback x w)))) ->
  forall (l : list A) w,
    fst (forEach l callback w) = Ok tt
    /\ Spec.keeps (document w) (document (snd (forEach l callback w))).
Proof.
  intros Hcb l. induction l as [| x l IH]; intros w.
  - split; [reflexivity | apply keeps_refl].
  - cbn [forEach]. unfold mbind, JS_bind.
    destruct (Hcb x w) as [Hok Hk].
    destruct (callback x w) as [r w1]. simpl in Hok, Hk. subst r.
    destruct (IH w1) as [Hok' Hk'].
    split; [exact Hok' | eapply keeps_trans; eassumption].
Qed.

(** *** The telegram pass *)

Lemma escapePlus_no_plus (s : jsstring) : chr "+" ∉ Spec.escapePlus s.
Proof.
  induction s as [| c s IH]; [apply not_elem_of_nil |].
  cbn [Spec.escapePlus flat_map]. fold (Spec.escapePlus s).
  intros Hin. apply elem_of_app in Hin as [Hin | Hin]; [| contradiction].
  destruct (N.eqb_spec c (chr "+")) as [-> | Hne].
  - apply list_elem_of_In in Hin. vm_compute in Hin.
    intuition discriminate.
  - apply list_elem_of_singleton in Hin. congruence.
Qed.

(** X5: for any telegram placeholder with a handle and a parent, the
    anchor's [href] is "https://t.me/" followed by the sanitized handle in
    which each plus sign is written [%2B] (so no plus sign is left in it),
    while the [aria-label] carries the handle as it is; the callback ends
    normally and logs nothing. *)
Theorem telegram_href_escapes_plus d tr el p :
  Spec.usernameOf d el <> [] ->
  Dom.getParentNode d el = Some p ->
  is_Some (d !! p) ->
  let username := Spec.usernameOf d el in
  let run := telegramStep innerText el (World d tr) in
  fst run = Ok tt
  /\ trace (snd run) = tr
  /\ Dom.getAttribute (document (snd run)) (length d) "href"
     = VStr (str "https://t.me/" ++ Spec.escapePlus username)
  /\ (chr "+" ∉ Spec.escapePlus username)
  /\ Dom.getAttribute (document (snd run)) (length d) "aria-label"
     = VStr (str "Telegram " ++ username).
Proof.
  intros Hu Hp Hnd username run. subst run.
  rewrite (telegramStep_link innerText d tr el p
             (Spec.escapePlus (Spec.usernameOf d el)) Hu
             (usernameOf_escaped d el) Hp Hnd).
  cbn [fst snd document trace]. rewrite !anchor_getAttribute.
  unfold Spec.telegramAnchor, Spec.telegramDraft. cbn [attributes].
  split; [reflexivity |]. split; [reflexivity |].
  split.
  { rewrite !lookup_insert_ne by discriminate.
    rewrite lookup_insert_eq. reflexivity. }
  split; [apply escapePlus_no_plus |].
  rewrite lookup_insert_eq. reflexivity.
Qed.

(** X6: a telegram placeholder with a handle but without a parent node is
    left where it is: the anchor is built but stays outside every tree,
    the nodes of the document are what they were, nothing is logged. *)
Theorem telegram_without_parent_kept d tr el :
  Spec.usernameOf d el <> [] ->
  Dom.getParentNode d el = None ->
  exists anchor,
    telegramStep innerText el (World d tr)
    = (Ok tt, World (d ++ [anchor]) tr)
    /\ kind anchor = Element "A"
    /\ parentNode anchor = None.
Proof.
  intros Hu Hp. eexists. rewrite telegramStep_run by exact Hu.
  cbv zeta. rewrite Hp. split; [reflexivity |]. split; reflexivity.
Qed.

(** *** The e-mail passes *)

(** X7: the callback of pass 2 is idempotent on the document: a second run
    on the same anchor leaves the document as the first run left it. *)
Theorem emailLinkStep_idempotent w el :
  document (snd (emailLinkStep el (snd (emailLinkStep el w))))
  = document (snd (emailLinkStep el w)).
Proof.
  destruct w as [d tr].
  destruct (Spec.emailReady d el) eqn:Hr.
  - unfold Spec.emailReady in Hr.
    apply andb_true_iff in Hr as [Hr Hv].
    apply andb_true_iff in Hr as [Hr Ht].
    apply andb_true_iff in Hr as [Hu Hd].
    apply bool_decide_eq_true in Hu, Hd, Ht.
    rewrite (emailLinkStep_href d tr el) by assumption.
    cbv zeta. cbn [snd].
    set (d1 := Dom.setAttribute _ el "rel" _).
    assert (Hdata : forall a : string,
              a ∉ ["href"; "aria-label"; "rel"]%string ->
              Dom.getAttribute d1 el a = Dom.getAttribute d el a).
    { intros a Ha. apply emailLinkStep_data. exact Ha. }
    assert (Hsame : Spec.userOf d1 el = Spec.userOf d el
                    /\ Spec.domainOf d1 el = Spec.domainOf d el
                    /\ Spec.tldOf d1 el = Spec.tldOf d el).
    { unfold Spec.userOf, Spec.domainOf, Spec.tldOf.
      rewrite !Hdata; [auto | | |];
        rewrite !not_elem_of_cons; repeat split;
        try discriminate; apply not_elem_of_nil. }
    destruct Hsame as (Eu & Ed & Et).
    assert (Ee : Spec.emailOf d1 el = Spec.emailOf d el).
    { unfold Spec.emailOf. rewrite Eu, Ed, Et. reflexivity. }
    rewrite (emailLinkStep_href d1 tr el)
      by (rewrite ?Eu, ?Ed, ?Et, ?Ee; assumption).
    cbv zeta. cbn [snd document]. rewrite Ee.
    apply list_eq. intros i. subst d1.
    rewrite !setAttribute_lookup.
    destruct (d !! i) as [nd |]; [| reflexivity]. simpl.
    case_bool_decide; [| reflexivity].
    do 2 f_equal. apply map_eq. intros k.
    rewrite !lookup_insert. repeat case_decide; reflexivity.
  - destruct (emailLinkStep_skips innerText d tr el Hr)
      as (msg & args & ->).
    cbn [snd].
    destruct (emailLinkStep_skips innerText d
                (tr ++ [ConsoleWarn msg args]) el Hr)
      as (msg' & args' & ->).
    reflexivity.
Qed.

(** X8: whatever the document, the obfuscator runs to its end without an
    exception.  Of every node that the document had, the run keeps the tag,
    the value of every attribute other than [href], [aria-label] and
    [rel], and the parent unless the node is taken out of the tree (as a
    converted placeholder is): no node is moved under another parent. *)
Theorem onReady_keeps w :
  fst (onReady innerText w) = Ok tt
  /\ Spec.keeps (document w) (document (snd (onReady innerText w))).
Proof.
  unfold onReady, processProtectedEmails, processProtectedTelegram.
  unfold mbind, JS_bind, querySelectorAll, reads.
  set (l1 := Dom.querySelectorAll (document w) _ _).
  destruct (forEach_safe (emailSpanStep innerText)
              (fun x w => emailSpanStep_safe w x) l1 w) as [O1 K1].
  destruct (forEach l1 (emailSpanStep innerText) w) as [r1 w1].
  simpl in O1, K1. subst r1.
  set (l2 := Dom.querySelectorAll (document w1) _ _).
  destruct (forEach_safe emailLinkStep
              (fun x w => emailLinkStep_safe w x) l2 w1) as [O2 K2].
  destruct (forEach l2 emailLinkStep w1) as [r2 w2].
  simpl in O2, K2. subst r2.
  set (l3 := Dom.querySelectorAll (document w2) _ _).
  destruct (forEach_safe (telegramStep innerText)
              (fun x w => telegramStep_safe w x) l3 w2) as [O3 K3].
  split; [exact O3 |].
  eapply keeps_trans; [| exact K3].
  eapply keeps_trans; eassumption.
Qed.

(** X9: pass 1 judges every element of its list on the document as it was
    when the pass began: the console gains, in the order of the list, one
    warning for each element with a missing or invalid address and nothing
    else, and the loop ends normally. *)
Theorem emailSpan_pass_warnings (l : list nid) d tr :
  (forall e, e ∈ l -> (e < length d)%nat) ->
  let run := forEach l (emailSpanStep innerText) (World d tr) in
  fst run = Ok tt
  /\ trace (snd run) = tr ++ flat_map (Spec.spanVerdict d) l.
Proof.
  revert d tr. induction l as [| e l IH]; intros d tr Hl; cbv zeta.
  - split; [reflexivity |]. simpl. rewrite app_nil_r. reflexivity.
  - cbn [forEach]. unfold mbind, JS_bind.
    destruct (emailSpanStep_effect d tr e) as (d1 & -> & Hlen & Hold & _).
    assert (Hl1 : forall x, x ∈ l -> (x < length d1)%nat).
    { intros x Hx. specialize (Hl x (list_elem_of_further _ _ _ Hx)). lia. }
    destruct (IH d1 (tr ++ Spec.spanVerdict d e) Hl1) as [Hok Htr].
    split; [exact Hok |]. rewrite Htr. cbn [flat_map].
    rewrite <- app_assoc. do 2 f_equal.
    assert (Hv : forall x, x ∈ l ->
              Spec.spanVerdict d1 x = Spec.spanVerdict d x).
    { intros x Hx. specialize (Hl x (list_elem_of_further _ _ _ Hx)).
      destruct (Hold x Hl) as [_ A].
      unfold Spec.spanVerdict, Spec.emailOf, Spec.userOf, Spec.domainOf,
        Spec.tldOf.
      rewrite !A. reflexivity. }
    clear -Hv. induction l as [| x l IHl]; [reflexivity |].
    cbn [flat_map]. rewrite Hv by apply list_elem_of_here.
    rewrite IHl; [reflexivity |].
    intros y Hy. apply Hv. apply list_elem_of_further. exact Hy.
Qed.

(** X10: the anchor that pass 1 puts in a placeholder's place carries the
    placeholder's class but none of its data attributes: the selector of
    pass 2 does not select it, a class selector that selected the
    placeholder selects it, and pass 1, run on it, warns of missing
    attributes and leaves the document as it is. *)
Theorem emailSpan_anchor_rerun d tr el p :
  Spec.emailReady d el = true ->
  Dom.parentElement d el = Some p ->
  Dom.tagName d p <> Some "A"%string ->
  let w' := snd (emailSpanStep innerText el (World d tr)) in
  let link := length d in
  Dom.selects (document w')
    (Dom.ByTagAttrs "a" ["data-user"; "data-domain"; "data-tld"]%string) link
  = false
  /\ (forall c, Dom.selects d (Dom.ByClass c) el = true ->
       Dom.selects (document w') (Dom.ByClass c) link = true)
  /\ emailSpanStep innerText link w'
     = (Ok tt,
        World (document w')
          (tr ++ [ConsoleWarn "Email protection: Missing data attributes"
                    []])).
Proof.
  intros Hr Hpe Htag w' link.
  unfold Spec.emailReady in Hr.
  apply andb_true_iff in Hr as [Hr Hv].
  apply andb_true_iff in Hr as [Hr Ht].
  apply andb_true_iff in Hr as [Hu Hd].
  apply bool_decide_eq_true in Hu, Hd, Ht.
  subst w' link.
  rewrite (emailSpanStep_link innerText d tr el p) by assumption.
  cbv zeta. cbn [snd document].
  set (anchor := Spec.emailAnchor _ _ _ _ _).
  assert (Hnone : forall a : string,
            a ∉ ["rel"; "aria-label"; "class"; "href"]%string ->
            Dom.getAttribute (Spec.replacedIn d p el ++ [anchor]) (length d) a
            = VNull).
  { intros a Ha. rewrite anchor_getAttribute.
    unfold anchor, Spec.emailAnchor, Spec.emailDraft. cbn [attributes].
    rewrite !not_elem_of_cons in Ha.
    rewrite !lookup_insert_ne, lookup_empty by (intros <-; tauto).
    reflexivity. }
  assert (Hfresh : forall a : string,
            a ∈ ["data-user"; "data-domain"; "data-tld"]%string ->
            a ∉ ["rel"; "aria-label"; "class"; "href"]%string).
  { intros a Ha. rewrite !elem_of_cons, elem_of_nil in Ha.
    rewrite !not_elem_of_cons.
    destruct Ha as [-> | [-> | [-> | []]]];
      repeat split; try discriminate; apply not_elem_of_nil. }
  split.
  { cbn [Dom.selects forallb].
    rewrite (Hnone "data-user")
      by (apply Hfresh, list_elem_of_here).
    cbn [is_string andb]. apply andb_false_r. }
  split.
  { intros c Hc. cbn [Dom.selects] in Hc |- *.
    apply andb_true_iff in Hc as [_ Hc].
    apply andb_true_iff. split.
    - apply bool_decide_eq_true. unfold Dom.tagName.
      rewrite anchor_lookup. eexists. reflexivity.
    - unfold Dom.classList, Dom.reflected in Hc |- *.
      rewrite anchor_getAttribute.
      unfold anchor, Spec.emailAnchor, Spec.emailDraft. cbn [attributes].
      rewrite !lookup_insert_ne by discriminate.
      rewrite lookup_insert_eq. exact Hc. }
  apply emailSpanStep_missing. left.
  unfold Spec.userOf. rewrite (Hnone "data-user"); [reflexivity |].
  apply Hfresh, list_elem_of_here.
Qed.

End Passes.

(** ** Further properties of the statistics updater *)

Section StatsLaws.

Import GitHubMetrics.

Variable network : string -> fetchOutcome.

Implicit Types (d : DOM) (tr : list event).

Lemma fetchGitHubData_cases d tr :
  (exists err,
     fetchGitHubData network (World d tr)
     = (Ok VNull,
        World d (tr ++ [Fetched Spec.apiUrl;
                        ConsoleError "Error fetching GitHub data:" err])))
  \/ (exists status data,
        network Spec.apiUrl = Responded status (Some data)
        /\ (200 <= status <= 299)%Z
        /\ fetchGitHubData network (World d tr)
           = (Ok data, World d (tr ++ [Fetched Spec.apiUrl]))).
Proof.
  destruct (network Spec.apiUrl) as [| status body] eqn:Hn.
  - left. eexists. apply fetchGitHubData_failure. rewrite Hn. constructor.
  - destruct (decide (200 <= status <= 299)%Z) as [Hst | Hst].
    + destruct body as [data |].
      * right. exists status, data. split; [reflexivity |].
        split; [exact Hst |].
        apply (fetchGitHubData_success network d tr status data Hn Hst).
      * left. eexists. apply fetchGitHubData_failure. rewrite Hn.
        apply Spec.FailJson. exact Hst.
    + left. eexists. apply fetchGitHubData_failure. rewrite Hn.
      apply Spec.FailStatus. exact Hst.
Qed.

Lemma getField_truthy (data : jsval) (name : string) :
  truthy data = true -> is_Some (getField data name).
Proof. destruct data; simpl; intros H; try discriminate; eauto. Qed.

Lemma updateStats_nothing d tr (status : Z) (data : jsval) :
  network Spec.apiUrl = Responded status (Some data) ->
  (200 <= status <= 299)%Z ->
  truthy data = false ->
  updateStats network (World d tr)
  = (Ok tt, World d (tr ++ [Fetched Spec.apiUrl])).
Proof.
  intros Hn Hst Ht. unfold updateStats, mbind, JS_bind.
  rewrite (fetchGitHubData_success network d tr status data Hn Hst), Ht.
  reflexivity.
Qed.

Lemma assigned_preserves d (target : option nid) (s : jsstring) i :
  length (Spec.assigned d target s) = length d
  /\ Dom.tagName (Spec.assigned d target s) i = Dom.tagName d i
  /\ forall a : string,
       Dom.getAttribute (Spec.assigned d target s) i a
       = Dom.getAttribute d i a.
Proof.
  destruct target as [e |]; simpl; [| auto].
  split; [apply setTextContent_length | apply setTextContent_preserves].
Qed.

(** The run on a 2xx response with a truthy body: the three queries, then
    the two assignments, the second only if the first goes through. *)
Lemma updateStats_unfold d tr (status : Z) (data : jsval) :
  network Spec.apiUrl = Responded status (Some data) ->
  (200 <= status <= 299)%Z ->
  truthy data = true ->
  updateStats network (World d tr)
  = match Dom.querySelector d documentNode (Dom.ByClass "sidebar-stats") with
    | Some c =>
        match
          match Dom.querySelector d c (Dom.FirstOfType "strong") with
          | Some e => assignText e data "followers"
          | None => mret tt
          end (World d (tr ++ [Fetched Spec.apiUrl]))
        with
        | (Ok _, w) =>
            match Dom.querySelector d c (Dom.LastOfType "strong") with
            | Some e => assignText e data "following"
            | None => mret tt
            end w
        | (Throw e, w) => (Throw e, w)
        end
    | None => (Ok tt, World d (tr ++ [Fetched Spec.apiUrl]))
    end.
Proof.
  intros Hn Hst Ht.
  unfold updateStats. unfold mbind at 1. unfold JS_bind at 1.
  rewrite (fetchGitHubData_success network d tr status data Hn Hst), Ht.
  unfold mbind at 1. unfold JS_bind at 1.
  unfold querySelector at 1. unfold reads at 1. cbn [document].
  destruct (Dom.querySelector d documentNode (Dom.ByClass "sidebar-stats"));
    reflexivity.
Qed.

(** An assignment writes its text, or stops on a value that has none. *)
Lemma assignText_cases (target : option nid) (data v : jsval)
    (name : string) (w : world) :
  getField data name = Some v ->
  let step :=
    match target with
    | Some e => assignText e data name
    | None => mret tt
    end w in
  (exists text, step = (Ok tt,
                        World (Spec.assigned (document w) target text)
                              (trace w)))
  \/ (step = (Throw (Error "TypeError"), w)
      /\ toNullableDOMString v = None).
Proof.
  intros Hv step. subst step.
  destruct (toNullableDOMString v) as [text |] eqn:Ht.
  - left. exists text.
    apply (assignText_run target data v text name w Hv Ht).
  - destruct target as [e |].
    + right. split; [| reflexivity].
      apply (assignText_throws e data v name w Hv Ht).
    + left. exists []. destruct w. reflexivity.
Qed.

Lemma plainText_text (v : jsval) (text : jsstring) :
  Spec.plainText v = Some text -> toNullableDOMString v = Some text.
Proof.
  destruct v as [| | b | z | s | l | props]; simpl; try congruence.
  destruct (Z.abs z <? 2 ^ 53)%Z eqn:Hz; [| discriminate].
  intros [= <-]. apply Z.ltb_lt in Hz. f_equal.
  assert (Hpos : forall p : positive,
            (Z.pos p < 2 ^ 53)%Z ->
            Number_toString_positive (Z.pos p) = decimal (Z.pos p)).
  { intros p Hp. unfold Number_toString_positive, nearestDouble.
    assert (Hlog : (Z.log2 (Z.pos p) < 53)%Z)
      by (apply Z.log2_lt_pow2; lia).
    replace (Z.log2 (Z.pos p) - 52 <=? 0)%Z with true
      by (symmetry; apply Z.leb_le; lia).
    reflexivity. }
  destruct z as [| p | p].
  - reflexivity.
  - cbn [Number_toString]. rewrite Hpos by lia.
    replace (Z.pos p <? 0)%Z with false by (symmetry; apply Z.ltb_ge; lia).
    rewrite Z.abs_eq by lia. reflexivity.
  - cbn [Number_toString].
    replace (Z.neg p <? 0)%Z with true by (symmetry; apply Z.ltb_lt; lia).
    change (- Z.neg p)%Z with (Z.pos p).
    change (Z.abs (Z.neg p)) with (Z.pos p) in *.
    rewrite Hpos by lia. reflexivity.
Qed.

(** X11: whatever the network answers and whatever the document holds,
    [updateStats] makes one request and logs at most one error, and changes
    no tag and no attribute of any node.  It ends normally, with one
    exception: a field it is about to write that cannot be made a string (an
    object holding a property [toString] of its own) raises a [TypeError]
    that nothing catches or logs.  A 2xx response whose JSON is falsy
    (null, false, 0, the empty string) changes nothing and logs nothing. *)
Theorem updateStats_outcomes d tr :
  let run := updateStats network (World d tr) in
  let d' := document (snd run) in
  (fst run = Ok tt \/ fst run = Throw (Error "TypeError"))
  /\ (trace (snd run) = tr ++ [Fetched Spec.apiUrl]
      \/ exists err,
           trace (snd run)
           = tr ++ [Fetched Spec.apiUrl;
                    ConsoleError "Error fetching GitHub data:" err])
  /\ (forall i,
        Dom.tagName d' i = Dom.tagName d i
        /\ forall a : string, Dom.getAttribute d' i a = Dom.getAttribute d i a)
  /\ (forall status data,
        network Spec.apiUrl = Responded status (Some data) ->
        (200 <= status <= 299)%Z ->
        truthy data = false ->
        run = (Ok tt, World d (tr ++ [Fetched Spec.apiUrl])))
  /\ (fst run <> Ok tt ->
      trace (snd run) = tr ++ [Fetched Spec.apiUrl]
      /\ exists status data name v,
           network Spec.apiUrl = Responded status (Some data)
           /\ (200 <= status <= 299)%Z
           /\ name ∈ Spec.statFields
           /\ getField data name = Some v
           /\ toNullableDOMString v = None).
Proof.
  intros run d'. subst d' run.
  assert (Hfalsy : forall status data,
            network Spec.apiUrl = Responded status (Some data) ->
            (200 <= status <= 299)%Z ->
            truthy data = false ->
            updateStats network (World d tr)
            = (Ok tt, World d (tr ++ [Fetched Spec.apiUrl])))
    by apply updateStats_nothing.
  destruct (fetchGitHubData_cases d tr)
    as [[err Hf] | (status & data & Hn & Hst & Hf)].
  - assert (Hrun : updateStats network (World d tr)
                   = (Ok tt,
                      World d (tr ++ [Fetched Spec.apiUrl;
                                      ConsoleError
                                        "Error fetching GitHub data:" err]))).
    { unfold updateStats, mbind, JS_bind. rewrite Hf. reflexivity. }
    rewrite Hrun. cbn [fst snd document trace].
    split; [auto |]. split; [eauto |]. split; [auto |].
    split; [| congruence].
    intros status data Hn Hst Ht. rewrite <- Hrun. eauto.
  - destruct (truthy data) eqn:Ht.
    2: { rewrite (Hfalsy status data Hn Hst Ht).
         cbn [fst snd document trace].
         split; [auto |]. split; [auto |]. split; [auto |].
         split; [auto | congruence]. }
    assert (Hdata : forall status' data',
              network Spec.apiUrl = Responded status' (Some data') ->
              truthy data' = false -> False).
    { intros status' data' Hn' Ht'.
      rewrite Hn in Hn'. injection Hn' as _ <-. congruence. }
    assert (Hfield : forall name : string,
              name ∈ Spec.statFields ->
              forall v, getField data name = Some v ->
              toNullableDOMString v = None ->
              exists status data name v,
                network Spec.apiUrl = Responded status (Some data)
                /\ (200 <= status <= 299)%Z
                /\ name ∈ Spec.statFields
                /\ getField data name = Some v
                /\ toNullableDOMString v = None).
    { intros name Hin v Hv Hnone. exists status, data, name, v. auto. }
    assert (Hin1 : ("followers" : string) ∈ Spec.statFields)
      by apply list_elem_of_here.
    assert (Hin2 : ("following" : string) ∈ Spec.statFields)
      by apply list_elem_of_further, list_elem_of_here.
    destruct (getField_truthy data "followers" Ht) as [vf Hvf].
    destruct (getField_truthy data "following" Ht) as [vg Hvg].
    rewrite (updateStats_unfold d tr status data Hn Hst Ht).
    destruct (Dom.querySelector d documentNode (Dom.ByClass "sidebar-stats"))
      as [c0 |].
    2: { cbn [fst snd document trace].
         split; [auto |]. split; [auto |]. split; [auto |].
         split; [intros; exfalso; eauto | congruence]. }
    set (w0 := World d (tr ++ [Fetched Spec.apiUrl])).
    destruct (assignText_cases
                (Dom.querySelector d c0 (Dom.FirstOfType "strong"))
                data vf "followers" w0 Hvf) as [[sf H1] | [H1 N1]];
      cbv zeta in H1; rewrite H1.
    2: { cbn [fst snd document trace].
         split; [auto |]. split; [auto |]. split; [auto |].
         split; [intros; exfalso; eauto |]. intros _. split; eauto. }
    match goal with
    | |- context [Spec.assigned (document w0) ?fe sf] =>
        set (d1 := Spec.assigned (document w0) fe sf);
        assert (K1 : forall i,
                  Dom.tagName d1 i = Dom.tagName d i
                  /\ forall a : string,
                       Dom.getAttribute d1 i a = Dom.getAttribute d i a)
          by (intros i; apply (assigned_preserves d fe sf i))
    end.
    destruct (assignText_cases
                (Dom.querySelector d c0 (Dom.LastOfType "strong"))
                data vg "following" (World d1 (trace w0)) Hvg)
      as [[sg H2] | [H2 N2]];
      cbv zeta in H2; rewrite H2.
    2: { cbn [fst snd document trace].
         split; [auto |]. split; [auto |]. split; [exact K1 |].
         split; [intros; exfalso; eauto |]. intros _. split; eauto. }
    cbn [fst snd document trace].
    split; [auto |]. split; [auto |]. split.
    { intros i.
      match goal with
      | |- context [Spec.assigned d1 ?ge sg] =>
          destruct (assigned_preserves d1 ge sg i) as (_ & T2 & A2)
      end.
      destruct (K1 i) as [T1 A1].
      split; [congruence |]. intros a. rewrite A2, A1. reflexivity. }
    split; [intros; exfalso; eauto | congruence].
Qed.

(** X12: on a 2xx response with a truthy body whose two fields are plain
    values, each target gets the text of its field's value: the digits of
    an integer (below 2^53 in size), a string as it is, [true] or [false],
    and no text at all for a field that is null or not there.  The target
    of [following] always ends so, the target of [followers] when it is
    another element. *)
Theorem updateStats_writes_values d tr (status : Z) (data vf vg : jsval)
    (sf sg : jsstring) :
  network Spec.apiUrl = Responded status (Some data) ->
  (200 <= status <= 299)%Z ->
  truthy data = true ->
  getField data "followers" = Some vf ->
  getField data "following" = Some vg ->
  Spec.plainText vf = Some sf ->
  Spec.plainText vg = Some sg ->
  let c := Dom.querySelector d documentNode (Dom.ByClass "sidebar-stats") in
  let fe := c ≫= fun c => Dom.querySelector d c (Dom.FirstOfType "strong") in
  let ge := c ≫= fun c => Dom.querySelector d c (Dom.LastOfType "strong") in
  let run := updateStats network (World d tr) in
  let d' := document (snd run) in
  fst run = Ok tt
  /\ (forall g, ge = Some g -> Dom.textContent d' g = sg)
  /\ (forall f, fe = Some f -> ge <> Some f -> Dom.textContent d' f = sf).
Proof.
  intros Hn Hst Ht Hvf Hvg Hsf Hsg c fe ge run d'.
  pose proof (updateStats_run network d tr status data vf vg sf sg
                Hn Hst Hvf Hvg (plainText_text _ _ Hsf)
                (plainText_text _ _ Hsg) Ht) as Hrun.
  cbv zeta in Hrun. fold c in Hrun. fold fe ge in Hrun.
  subst d' run. rewrite Hrun. cbn [fst snd document].
  assert (Hfe : forall f, fe = Some f -> is_Some (d !! f)).
  { intros f H. subst fe. destruct c as [c0 |]; [| discriminate].
    eapply querySelector_exists. exact H. }
  assert (Hge : forall g, ge = Some g -> is_Some (d !! g)).
  { intros g H. subst ge. destruct c as [c0 |]; [| discriminate].
    eapply querySelector_exists. exact H. }
  split; [reflexivity |]. split.
  - intros g Hg'. rewrite Hg'. simpl.
    apply setTextContent_text. apply lookup_lt_is_Some.
    destruct fe as [f |]; simpl.
    + rewrite setTextContent_length. apply lookup_lt_is_Some. auto.
    + apply lookup_lt_is_Some. auto.
  - intros f Hf' Hne. rewrite Hf'. simpl.
    destruct ge as [g |] eqn:Hg'; simpl.
    + apply setTextContent_text_other; [congruence | auto].
    + apply setTextContent_text. auto.
Qed.

End StatsLaws.

(** ** The contribution counter *)

Section Contributions.

Import GitHubMetrics.

Variable network : string -> fetchOutcome.
Variable oneYearAgo : Z.
Variable timeValue : jsval -> option Z.
Variable toDateString : Z -> jsstring.

Lemma events_url :
  (GITHUB_API_BASE +:+ "/users/" +:+ GITHUB_USERNAME
   +:+ "/events/public?per_page=100")%string = Spec.eventsUrl.
Proof. reflexivity. Qed.

(** The loop reads and writes nothing but its set. *)
Lemma collectDays_world (items : list jsval) (days : gset jsstring)
    (w : world) :
  snd (collectDays oneYearAgo timeValue toDateString items days w) = w.
Proof.
  revert days. induction items as [| ev items IH]; intros days;
    [reflexivity |].
  cbn [collectDays]. unfold mbind, JS_bind, orThrow.
  destruct (getField ev "created_at") as [v |]; [| reflexivity].
  cbn [mret JS_ret].
  destruct (ToPrimitive v) as [v' |]; [| reflexivity].
  cbn [mret JS_ret].
  destruct (timeValue v') as [t |]; [| apply IH].
  destruct (oneYearAgo <=? t)%Z; apply IH.
Qed.

Lemma collectDays_ok (items : list jsval) (days : gset jsstring)
    (w : world) :
  forallb Spec.datable items = true ->
  collectDays oneYearAgo timeValue toDateString items days w
  = (Ok (list_to_set
           (omap (Spec.recentDay oneYearAgo timeValue toDateString) items)
         ∪ days), w).
Proof.
  revert days. induction items as [| ev items IH]; intros days H.
  - cbn [collectDays]. unfold mret, JS_ret.
    change (omap _ []) with (@nil jsstring).
    rewrite list_to_set_nil, union_empty_l_L. reflexivity.
  - cbn [forallb] in H. apply andb_true_iff in H as [Hev H].
    unfold Spec.datable in Hev.
    destruct (getField ev "created_at") as [v |] eqn:Hv; [| discriminate].
    cbn [mbind option_bind] in Hev.
    destruct (ToPrimitive v) as [v' |] eqn:Hv'; [| discriminate].
    cbn [collectDays]. unfold mbind, JS_bind, orThrow.
    rewrite Hv. cbn [mret JS_ret].
    change (omap (Spec.recentDay oneYearAgo timeValue toDateString)
              (ev :: items))
      with (match Spec.recentDay oneYearAgo timeValue toDateString ev with
            | Some y =>
                y :: omap (Spec.recentDay oneYearAgo timeValue toDateString)
                       items
            | None =>
                omap (Spec.recentDay oneYearAgo timeValue toDateString) items
            end).
    unfold Spec.recentDay at 1. rewrite Hv.
    cbn [mbind option_bind]. rewrite Hv'. cbn [mret JS_ret].
    destruct (timeValue v') as [t |]; [| apply IH; exact H].
    destruct (oneYearAgo <=? t)%Z; [| apply IH; exact H].
    rewrite IH by exact H. rewrite list_to_set_cons. do 2 f_equal.
    rewrite (assoc_L (∪)). f_equal. apply (comm_L (∪)).
Qed.

(** The loop stops at the first event that it cannot date. *)
Lemma collectDays_throws (items : list jsval) (days : gset jsstring)
    (w : world) :
  forallb Spec.datable items = false ->
  collectDays oneYearAgo timeValue toDateString items days w
  = (Throw (Error "TypeError"), w).
Proof.
  revert days. induction items as [| ev items IH]; intros days H;
    [discriminate |].
  cbn [forallb] in H. unfold Spec.datable at 1 in H.
  cbn [collectDays]. unfold mbind, JS_bind, orThrow.
  destruct (getField ev "created_at") as [v |]; [| reflexivity].
  cbn [mbind option_bind] in H. cbn [mret JS_ret].
  destruct (ToPrimitive v) as [v' |]; [| reflexivity].
  cbn [andb] in H. cbn [mret JS_ret].
  destruct (timeValue v') as [t |]; [| apply IH; exact H].
  destruct (oneYearAgo <=? t)%Z; apply IH; exact H.
Qed.

Lemma list_to_set_dedup (l : list jsstring) :
  list_to_set (C := gset jsstring) (remove_dups l) = list_to_set l.
Proof.
  apply set_eq. intros x.
  rewrite !elem_of_list_to_set. apply elem_of_remove_dups.
Qed.

Lemma remove_dups_length (l : list jsstring) :
  (length (remove_dups l) <= length l)%nat.
Proof.
  induction l as [| x l IH]; simpl; [lia |].
  destruct (decide_rel elem_of x l); simpl; lia.
Qed.

Lemma omap_length {A B} (f : A -> option B) (l : list A) :
  (length (omap f l) <= length l)%nat.
Proof.
  induction l as [| x l IH]; [reflexivity |].
  change (omap f (x :: l))
    with (match f x with Some y => y :: omap f l | None => omap f l end).
  destruct (f x); simpl; lia.
Qed.

(** X13: on a 2xx response that is an array of events, each of them with
    properties to read and a [created_at] that can be brought to a
    primitive, [fetchContributions] returns the number of different days,
    as [toDateString] names them, on which an event of the last year
    falls: a day counts once however many events it has, and events that
    are older or whose date cannot be read count for nothing.  The number
    is at most the number of events; nothing is logged and the document is
    not touched. *)
Theorem fetchContributions_counts d tr (status : Z) (items : list jsval) :
  network Spec.eventsUrl = Responded status (Some (VArr items)) ->
  (200 <= status <= 299)%Z ->
  forallb Spec.datable items = true ->
  let days :=
    remove_dups
      (omap (Spec.recentDay oneYearAgo timeValue toDateString) items) in
  fetchContributions network oneYearAgo timeValue toDateString (World d tr)
  = (Ok (VNum (Z.of_nat (length days))),
     World d (tr ++ [Fetched Spec.eventsUrl]))
  /\ (length days <= length items)%nat.
Proof.
  intros Hn Hst Hev days. split.
  - unfold fetchContributions, try_catch, fetch, mbind, JS_bind, emit.
    rewrite events_url. cbn [document trace]. rewrite Hn.
    cbn [mret JS_ret ok json orThrow].
    replace ((200 <=? status)%Z && (status <=? 299)%Z) with true
      by (symmetry; apply andb_true_iff; rewrite !Z.leb_le; lia).
    cbn [negb]. rewrite collectDays_ok by exact Hev.
    cbn [mret JS_ret]. do 3 f_equal.
    rewrite union_empty_r_L.
    rewrite <- list_to_set_dedup. f_equal.
    apply size_list_to_set, NoDup_remove_dups.
  - subst days.
    etransitivity; [apply remove_dups_length | apply omap_length].
Qed.

(** X15: on a 2xx response that is an array, one event that cannot be
    dated (it is null, or its [created_at] is an object holding a property
    [toString] of its own) discards the whole count, whatever the other
    events are: [fetchContributions] returns null and logs the
    [TypeError]. *)
Theorem fetchContributions_undatable d tr (status : Z)
    (items : list jsval) :
  network Spec.eventsUrl = Responded status (Some (VArr items)) ->
  (200 <= status <= 299)%Z ->
  forallb Spec.datable items = false ->
  fetchContributions network oneYearAgo timeValue toDateString (World d tr)
  = (Ok VNull,
     World d (tr ++ [Fetched Spec.eventsUrl;
                     ConsoleError "Error fetching contributions:"
                       (Error "TypeError")])).
Proof.
  intros Hn Hst Hev.
  unfold fetchContributions, try_catch, fetch, mbind, JS_bind, emit,
    console_error.
  rewrite events_url. cbn [document trace]. rewrite Hn.
  cbn [mret JS_ret ok json orThrow].
  replace ((200 <=? status)%Z && (status <=? 299)%Z) with true
    by (symmetry; apply andb_true_iff; rewrite !Z.leb_le; lia).
  cbn [negb]. rewrite collectDays_throws by exact Hev.
  unfold emit. cbn [document trace]. rewrite <- app_assoc. reflexivity.
Qed.

(** X14: whatever the network answers, [fetchContributions] ends normally
    and leaves the document alone: it returns a count after the one
    request and logs nothing, or it returns null and logs one error. *)
Theorem fetchContributions_total (w : world) :
  let run :=
    fetchContributions network oneYearAgo timeValue toDateString w in
  document (snd run) = document w
  /\ ((exists n : nat,
         fst run = Ok (VNum (Z.of_nat n))
         /\ trace (snd run) = trace w ++ [Fetched Spec.eventsUrl])
      \/ (exists err,
            fst run = Ok VNull
            /\ trace (snd run)
               = trace w
                 ++ [Fetched Spec.eventsUrl;
                     ConsoleError "Error fetching contributions:" err])).
Proof.
  destruct w as [d tr]. cbv zeta.
  unfold fetchContributions, try_catch, fetch, mbind, JS_bind, emit,
    console_error, throw.
  rewrite events_url. cbn [document trace].
  destruct (network Spec.eventsUrl) as [| status body];
    cbn [mret JS_ret ok json orThrow throw emit document trace fst snd].
  { split; [reflexivity |]. right. eexists.
    rewrite <- app_assoc. split; reflexivity. }
  destruct ((200 <=? status)%Z && (status <=? 299)%Z);
    cbn [negb mret JS_ret emit document trace fst snd].
  2: { split; [reflexivity |]. right. eexists.
       rewrite <- app_assoc. split; reflexivity. }
  destruct body as [events |];
    cbn [orThrow mret JS_ret throw emit document trace fst snd].
  2: { split; [reflexivity |]. right. eexists.
       rewrite <- app_assoc. split; reflexivity. }
  destruct events as [| | b | z | s | items | props];
    try (cbn [document trace fst snd]; split; [reflexivity |]; right;
         eexists; rewrite <- app_assoc; split; reflexivity).
  pose proof (collectDays_world items ∅
                (World d (tr ++ [Fetched Spec.eventsUrl]))) as Hw.
  destruct (collectDays oneYearAgo timeValue toDateString items ∅
              (World d (tr ++ [Fetched Spec.eventsUrl])))
    as [[days | err] w1].
  - simpl in Hw. subst w1. cbn [document trace fst snd].
    split; [reflexivity |]. left. eexists. split; reflexivity.
  - simpl in Hw. subst w1. cbn [document trace fst snd].
    split; [reflexivity |]. right. eexists.
    rewrite <- app_assoc. split; reflexivity.
Qed.

End Contributions.

(** ** The further properties on the sample pages *)

Section MoreSamples.

Import EmailProtection GitHubMetrics Examples.

Lemma telegram_href_escapes_plus_witness :
  Spec.usernameOf handles 1%nat <> []
  /\ Dom.getParentNode handles 1%nat = Some 0%nat
  /\ is_Some (handles !! 0%nat)
  /\ Dom.getAttribute
       (document (snd (telegramStep blankLayout 1%nat (World handles []))))
       (length handles) "href"
     = VStr (str "https://t.me/a%2Bb").
Proof.
  assert (Hu : Spec.usernameOf handles 1%nat <> [])
    by (vm_compute; discriminate).
  assert (Hp : is_Some (handles !! 0%nat)) by (eexists; reflexivity).
  split; [exact Hu |]. split; [reflexivity |]. split; [exact Hp |].
  exact (proj1 (proj2 (proj2
           (telegram_href_escapes_plus blankLayout handles [] 1%nat 0%nat
              Hu eq_refl Hp)))).
Defined.

Lemma telegram_without_parent_kept_witness :
  Spec.usernameOf handles 2%nat <> []
  /\ Dom.getParentNode handles 2%nat = None
  /\ exists anchor,
       telegramStep blankLayout 2%nat (World handles [])
       = (Ok tt, World (handles ++ [anchor]) [])
       /\ kind anchor = Element "A"
       /\ parentNode anchor = None.
Proof.
  assert (Hu : Spec.usernameOf handles 2%nat <> [])
    by (vm_compute; discriminate).
  split; [exact Hu |]. split; [reflexivity |].
  exact (telegram_without_parent_kept blankLayout handles [] 2%nat
           Hu eq_refl).
Defined.

Lemma emailSpan_pass_warnings_witness :
  (forall e, e ∈ [2%nat; 8%nat; 9%nat] -> (e < length page)%nat)
  /\ trace (snd (forEach [2%nat; 8%nat; 9%nat] (emailSpanStep blankLayout)
                   (World page [])))
     = [ConsoleWarn "Email protection: Missing data attributes" []].
Proof.
  assert (Hl : forall e, e ∈ [2%nat; 8%nat; 9%nat] -> (e < length page)%nat).
  { intros e He. rewrite !elem_of_cons, elem_of_nil in He.
    destruct He as [-> | [-> | [-> | []]]]; simpl; lia. }
  split; [exact Hl |].
  exact (proj2 (emailSpan_pass_warnings blankLayout
                  [2%nat; 8%nat; 9%nat] page [] Hl)).
Defined.

Lemma emailSpan_anchor_rerun_witness :
  Spec.emailReady page 2%nat = true
  /\ Dom.parentElement page 2%nat = Some 1%nat
  /\ Dom.tagName page 1%nat <> Some "A"%string
  /\ Dom.selects
       (document (snd (emailSpanStep blankLayout 2%nat (World page []))))
       (Dom.ByClass "protected-email") (length page)
     = true.
Proof.
  assert (Hr : Spec.emailReady page 2%nat = true)
    by (vm_compute; reflexivity).
  assert (Htag : Dom.tagName page 1%nat <> Some "A"%string)
    by (vm_compute; discriminate).
  split; [exact Hr |]. split; [reflexivity |]. split; [exact Htag |].
  refine (proj1 (proj2 (emailSpan_anchor_rerun blankLayout page [] 2%nat
                          1%nat Hr eq_refl Htag))
            "protected-email"%string _).
  vm_compute. reflexivity.
Defined.

Lemma updateStats_outcomes_witness :
  fst (updateStats opaqueFollowers (World page []))
  = Throw (Error "TypeError")
  /\ trace (snd (updateStats opaqueFollowers (World page [])))
     = [Fetched Spec.apiUrl].
Proof.
  assert (H : fst (updateStats opaqueFollowers (World page [])) <> Ok tt)
    by (vm_compute; discriminate).
  destruct (updateStats_outcomes opaqueFollowers page [])
    as (Ho & _ & _ & _ & Ht).
  split.
  - destruct Ho as [Ho | Ho]; [contradiction | exact Ho].
  - exact (proj1 (Ht H)).
Defined.

Lemma updateStats_writes_values_witness :
  onlyFollowers Spec.apiUrl
  = Responded 200 (Some (VObj [(str "followers", VNum 1000)]))
  /\ (200 <= 200 <= 299)%Z
  /\ Spec.plainText (VNum 1000) = Some (str "1000")
  /\ Spec.plainText VUndefined = Some []
  /\ Dom.textContent
       (document (snd (updateStats onlyFollowers (World page [])))) 7%nat
     = []
  /\ Dom.textContent
       (document (snd (updateStats onlyFollowers (World page [])))) 6%nat
     = str "1000".
Proof.
  split; [reflexivity |]. split; [lia |].
  split; [reflexivity |]. split; [reflexivity |].
  assert (Hst : (200 <= 200 <= 299)%Z) by lia.
  pose proof (updateStats_writes_values onlyFollowers page [] 200
                (VObj [(str "followers", VNum 1000)])
                (VNum 1000) VUndefined (str "1000") []
                eq_refl Hst eq_refl eq_refl eq_refl eq_refl eq_refl)
    as (_ & Hg & Hf).
  split.
  - refine (Hg 7%nat _). vm_compute. reflexivity.
  - refine (Hf 6%nat _ _); [vm_compute; reflexivity | vm_compute].
    discriminate.
Defined.

Lemma fetchContributions_counts_witness :
  eventsFeed Spec.eventsUrl = Responded 200 (Some (VArr someEvents))
  /\ (200 <= 200 <= 299)%Z
  /\ forallb Spec.datable someEvents = true
  /\ fetchContributions eventsFeed 1000 numberTime dayNumber (World page [])
     = (Ok (VNum 2), World page [Fetched Spec.eventsUrl]).
Proof.
  assert (Hst : (200 <= 200 <= 299)%Z) by lia.
  assert (Hev : forallb Spec.datable someEvents = true)
    by (vm_compute; reflexivity).
  split; [reflexivity |]. split; [exact Hst |]. split; [exact Hev |].
  exact (proj1 (fetchContributions_counts eventsFeed 1000 numberTime
                  dayNumber page [] 200 someEvents eq_refl Hst Hev)).
Defined.

Lemma fetchContributions_undatable_witness :
  (200 <= 200 <= 299)%Z
  /\ fetchContributions opaqueFeed 1000 numberTime dayNumber (World page [])
     = (Ok VNull,
        World page [Fetched Spec.eventsUrl;
                    ConsoleError "Error fetching contributions:"
                      (Error "TypeError")]).
Proof.
  assert (Hst : (200 <= 200 <= 299)%Z) by lia.
  split; [exact Hst |].
  refine (fetchContributions_undatable opaqueFeed 1000 numberTime dayNumber
            page [] 200 _ eq_refl Hst _).
  vm_compute. reflexivity.
Defined.

(** X16: counters beyond 2^53 are shown as JavaScript prints the numbers
    they are read as: 2^64 as 18446744073709552000 and 10^21 as 1e+21. *)
Theorem updateStats_huge_counters :
  let d' := document (snd (updateStats hugeCounters (World page []))) in
  Dom.textContent d' 6%nat = str "18446744073709552000"
  /\ Dom.textContent d' 7%nat = str "1e+21".
Proof. vm_compute. split; reflexivity. Qed.

End MoreSamples.
